(** * Monocular visual odometry node: shallow embedding and verified properties

    Embedding of [src/visual_odometry/scripts/visual_odometry_publisher.py]:
    the [VisualOdometry] class ([get_matches], [get_pose],
    [decomp_essential_mat] with its inner [sum_z_cal_relative_scale]),
    [matrix_to_quaternion] and the ROS callback [image_callback].

    Conventions.
    - A numpy array of rank 2 is a row-major [list (list F)]; a rank-1 array
      is a [list F].
    - numpy arithmetic is the interface [Arith], instantiated with IEEE-754
      ([SpecFloat]): binary64 (precision 53, emax 1024) for [float64] arrays
      and binary32 (precision 24, emax 128) for the [float32] arrays that
      [cv2.triangulatePoints] returns for [float32] points.
    - OpenCV, ROS and libm entry points are fields of the record
      [externals]: they are total functions on the data model (the calls are
      modelled where they succeed), their numeric content is not fixed here.
    - Mutable Python objects ([self.world_points], the module globals, the
      publisher) are threaded explicitly as state. *)

From Stdlib Require Import ZArith List Bool Arith Lia.
From Stdlib Require Import Floats.SpecFloat.
Import ListNotations.

Set Implicit Arguments.

(** ** Python exceptions and results *)

Module Py.

Inductive exn : Type :=
| ValueError
| IndexError.

Inductive result (A : Type) : Type :=
| Ok (a : A)
| Raise (e : exn).

Arguments Ok {A} a.
Arguments Raise {A} e.

Definition bind {A B : Type} (r : result A) (k : A -> result B) : result B :=
  match r with
  | Ok a => k a
  | Raise e => Raise e
  end.

(** [seq[i]] for a Python int [i]: negative indices count from the end,
    anything outside [-len, len) raises [IndexError]. *)
Definition index {A : Type} (l : list A) (i : Z) : result A :=
  let n := Z.of_nat (length l) in
  let j := if (i <? 0)%Z then (i + n)%Z else i in
  if ((0 <=? j)%Z && (j <? n)%Z)%bool
  then match nth_error l (Z.to_nat j) with
       | Some a => Ok a
       | None => Raise IndexError
       end
  else Raise IndexError.

(** [[f(x) for x in l]] where [f] may raise. *)
Fixpoint comprehension {A B : Type} (f : A -> result B) (l : list A)
  : result (list B) :=
  match l with
  | [] => Ok []
  | x :: r =>
      bind (f x) (fun y => bind (comprehension f r) (fun ys => Ok (y :: ys)))
  end.

End Py.

Notation "x <- c1 ;; c2" := (Py.bind c1 (fun x => c2))
  (at level 61, c1 at next level, right associativity).

(** ** The arithmetic of numpy arrays *)

(** The element types of the arrays that occur. *)
Inductive dtype : Type :=
| float32
| float64.

Class Arith (F : Type) : Type := {
  f0 : F;                       (* 0.0 *)
  f1 : F;                       (* 1.0 *)
  lit_0_5 : F;                  (* the literal 0.5 *)
  lit_1e_5 : F;                 (* the literal 0.00001 *)
  fof_nat : nat -> F;           (* a non-negative Python int as a float *)
  fadd : F -> F -> F;
  fsub : F -> F -> F;
  fmul : F -> F -> F;
  fdiv : F -> F -> F;
  fopp : F -> F;
  fsqrt : F -> F;
  fadd32 : F -> F -> F;         (* the same operations on float32 operands, *)
  fsub32 : F -> F -> F;         (* rounded to single precision *)
  fmul32 : F -> F -> F;
  fdiv32 : F -> F -> F;
  fsqrt32 : F -> F;
  fup : F -> F;                 (* a float32 value as a float64 value *)
  flt : F -> F -> bool;         (* x < y, false on NaN *)
  isfinite : F -> bool;         (* np.isfinite *)
  truthy : F -> bool            (* bool(x), i.e. x != 0 *)
}.

(** *** IEEE-754 binary64 *)

Module B64.

Definition prec : Z := 53.
Definition emax : Z := 1024.

(** binary32 *)
Definition prec32 : Z := 24.
Definition emax32 : Z := 128.

Definition of_Z (z : Z) : spec_float := binary_normalize prec emax z 0 false.

Definition is_finite (x : spec_float) : bool :=
  match x with
  | S754_zero _ => true
  | S754_finite _ _ _ => true
  | S754_infinity _ => false
  | S754_nan => false
  end.

Definition nonzero (x : spec_float) : bool :=
  match x with
  | S754_zero _ => false
  | _ => true
  end.

(** 0x1.4f8b588e368f1p-17, the double nearest to 0.00001. *)
Definition eps : spec_float := S754_finite false 5902958103587057 (-69).
Definition half : spec_float := S754_finite false 4503599627370496 (-53).

(** A binary32 number in the representation of binary64 (the value is
    the same). *)
Definition upcast (x : spec_float) : spec_float :=
  match x with
  | S754_finite s m e => binary_normalize prec emax (cond_Zopp s (Z.pos m)) e s
  | _ => x
  end.


End B64.

#[export] Instance binary64 : Arith spec_float := {
  f0 := S754_zero false;
  f1 := B64.of_Z 1;
  lit_0_5 := B64.half;
  lit_1e_5 := B64.eps;
  fof_nat := fun n => B64.of_Z (Z.of_nat n);
  fadd := SFadd B64.prec B64.emax;
  fsub := SFsub B64.prec B64.emax;
  fmul := SFmul B64.prec B64.emax;
  fdiv := SFdiv B64.prec B64.emax;
  fopp := SFopp;
  fsqrt := SFsqrt B64.prec B64.emax;
  fadd32 := SFadd B64.prec32 B64.emax32;
  fsub32 := SFsub B64.prec32 B64.emax32;
  fmul32 := SFmul B64.prec32 B64.emax32;
  fdiv32 := SFdiv B64.prec32 B64.emax32;
  fsqrt32 := SFsqrt B64.prec32 B64.emax32;
  fup := B64.upcast;
  flt := SFltb;
  isfinite := B64.is_finite;
  truthy := B64.nonzero
}.

(** ** numpy arrays *)

Section Arrays.

Context {F : Type} `{Arith F}.

Local Abbreviation vector := (list F).
Local Abbreviation matrix := (list (list F)).

Fixpoint map2 {A B C : Type} (f : A -> B -> C) (l : list A) (l' : list B)
  : list C :=
  match l, l' with
  | a :: r, b :: r' => f a b :: map2 f r r'
  | _, _ => []
  end.

(** [m[i, j]] on a well-shaped array. *)
Definition at2 (m : matrix) (i j : nat) : F := nth j (nth i m []) f0.

Definition row (m : matrix) (i : nat) : vector := nth i m [].

Definition ncols (m : matrix) : nat := length (hd [] m).

(** [m.T] *)
Definition transpose (m : matrix) : matrix :=
  map (fun j => map (fun r => nth j r f0) m) (seq 0 (ncols m)).

(** The operations on arrays of a given element type. *)
Definition add_in (d : dtype) : F -> F -> F :=
  match d with float32 => fadd32 | float64 => fadd end.
Definition sub_in (d : dtype) : F -> F -> F :=
  match d with float32 => fsub32 | float64 => fsub end.
Definition mul_in (d : dtype) : F -> F -> F :=
  match d with float32 => fmul32 | float64 => fmul end.
Definition div_in (d : dtype) : F -> F -> F :=
  match d with float32 => fdiv32 | float64 => fdiv end.
Definition sqrt_in (d : dtype) : F -> F :=
  match d with float32 => fsqrt32 | float64 => fsqrt end.

(** [a.astype(np.float64)] of a float32 array, as numpy does to the float32
    operand of an operation whose other operand is float64. *)
Definition astype64 (a : matrix) : matrix := map (map fup) a.

(** A short reduction, accumulated entry after entry from 0: the inner loop
    of a matrix product, [np.add.reduce] along an axis of three entries. *)
Definition accumulate (d : dtype) (v : vector) : F := fold_left (add_in d) v f0.

Definition dot (u v : vector) : F := accumulate float64 (map2 fmul u v).

(** [np.add.reduce] of a contiguous float64 array: numpy's pairwise
    summation.  Fewer than 8 entries are added one after the other; up to
    128 entries are added into 8 running sums that are then combined as a
    tree, the entries beyond the last full group of 8 being added to the
    result; a longer array is split at half its length rounded down to a
    multiple of 8, and the sums of the two parts are added. *)
Fixpoint unrolled (fuel : nat) (r a : vector) : vector * vector :=
  match fuel with
  | 0 => (r, a)
  | S fuel' =>
      if 8 <=? length a
      then unrolled fuel' (map2 fadd r (firstn 8 a)) (skipn 8 a)
      else (r, a)
  end.

Definition block_sum (a : vector) : F :=
  let '(r, rest) := unrolled (length a) (firstn 8 a) (skipn 8 a) in
  let res := fadd (fadd (fadd (nth 0 r f0) (nth 1 r f0)) (fadd (nth 2 r f0) (nth 3 r f0)))
                  (fadd (fadd (nth 4 r f0) (nth 5 r f0)) (fadd (nth 6 r f0) (nth 7 r f0))) in
  fold_left fadd rest res.

Fixpoint pairwise_sum (fuel : nat) (a : vector) : F :=
  if length a <? 8 then fold_left fadd a f0
  else if length a <=? 128 then block_sum a
  else match fuel with
       | 0 => block_sum a
       | S fuel' =>
           let n2 := length a / 2 - (length a / 2) mod 8 in
           fadd (pairwise_sum fuel' (firstn n2 a)) (pairwise_sum fuel' (skipn n2 a))
       end.

(** The reduction starts from the identity 0 of the addition. *)
Definition np_sum (v : vector) : F := fadd f0 (pairwise_sum (length v) v).

(** [np.matmul(a, b)] / [a @ b] on float64 arrays: every entry is the
    products of a row and a column added in index order, each product and
    each sum rounded to float64 (no fused multiply-add). *)
Definition matmul (a b : matrix) : matrix :=
  map (fun r => map (fun c => dot r c) (transpose b)) a.

(** [np.concatenate((K, np.zeros((3, 1))), axis=1)] *)
Definition concat_zero_col (k : matrix) : matrix :=
  map (fun r => r ++ [f0]) k.

(** [hom[:3, :] / hom[3, :]] on an array of element type [d]: the first
    three rows, each divided element-wise by the fourth. *)
Definition unhomogenize (d : dtype) (hom : matrix) : matrix :=
  map (fun r => map2 (div_in d) r (row hom 3)) (firstn 3 hom).

(** [sum(v > 0)]: the comparison gives a boolean array, the built-in
    [sum] counts its [True] entries. *)
Definition count_pos (v : vector) : nat :=
  length (filter (fun z => flt f0 z) v).

(** [a - b] on two arrays of the same shape and element type. *)
Definition msub (d : dtype) (a b : matrix) : matrix := map2 (map2 (sub_in d)) a b.

(** [np.linalg.norm(a, axis=-1)]: [sqrt(add.reduce(a * a, axis=-1))], in the
    element type of [a]. *)
Definition norm_rows (d : dtype) (a : matrix) : vector :=
  map (fun r => sqrt_in d (accumulate d (map2 (mul_in d) r r))) a.

(** [np.mean(v)] of a float64 array: the sum divided by the count. *)
Definition np_mean (v : vector) : F := fdiv (np_sum v) (fof_nat (length v)).

(** [np.linalg.norm(Q.T[:-1] - Q.T[1:], axis=-1)] *)
Definition consecutive_dists (d : dtype) (Q : matrix) : vector :=
  norm_rows d (msub d (removelast (transpose Q)) (tl (transpose Q))).

(** [np.argmax] of a non-empty list of integers: the index of the first
    occurrence of the maximum. *)
Fixpoint argmax_from (best_i best i : nat) (l : list nat) : nat :=
  match l with
  | [] => best_i
  | x :: r =>
      if best <? x then argmax_from i x (S i) r
      else argmax_from best_i best (S i) r
  end.

Definition np_argmax (l : list nat) : nat :=
  match l with
  | [] => 0
  | x :: r => argmax_from 0 x 1 r
  end.

End Arrays.

(** ** OpenCV, numpy and ROS entry points used by the node *)

From Stdlib Require String.

Record KeyPoint (F : Type) : Type := { pt : F * F }.

Record DMatch (F : Type) : Type := {
  queryIdx : Z;
  trainIdx : Z;
  distance : F
}.

(** [Frame] is an image buffer, [Desc] a descriptor array and [Msg] a
    [sensor_msgs/Image].  The detector and the matcher are the objects built
    in [VisualOdometry.__init__] ([cv2.ORB_create(3000)], the LSH
    [cv2.FlannBasedMatcher]); the matcher is called with [k=2]. *)
Record externals (F Frame Desc Msg : Type) : Type := {
  detectAndCompute : Frame -> list (KeyPoint F) * Desc;
  knnMatch : Desc -> Desc -> list (list (DMatch F));
  findEssentialMat : list (F * F) -> list (F * F) -> list (list F) -> list (list F);
  decomposeEssentialMat : list (list F) -> list (list F) * list (list F) * list (list F);
  triangulatePoints :
    list (list F) -> list (list F) -> list (list F) -> list (list F) -> list (list F);
  Rodrigues : list (list F) -> list F;
  np_sin : F -> F;
  np_cos : F -> F;
  flip : Frame -> Frame;
  imgmsg_to_cv2 : Msg -> Frame
}.

(** ** class VisualOdometry *)

Section VisualOdometry.

Context {F : Type} `{Arith F}.
Context {Frame Desc Msg : Type}.
Variable api : externals F Frame Desc Msg.

Local Abbreviation vector := (list F).
Local Abbreviation matrix := (list (list F)).
Local Abbreviation points := (list (F * F)).

(** [q.T] for an array of shape (N, 2). *)
Definition points_T (q : points) : matrix :=
  [map fst q; map snd q].

Record VisualOdometry : Type := {
  K : matrix;
  extrinsic : matrix;
  P : matrix;
  world_points : list matrix
}.

Definition __init__ (intrinsic : matrix) : VisualOdometry :=
  let extrinsic := [[f1; f0; f0; f0]; [f0; f1; f0; f0]; [f0; f0; f1; f0]] in
  {| K := intrinsic;
     extrinsic := extrinsic;
     P := matmul intrinsic extrinsic;
     world_points := [] |}.

(** [T = np.eye(4); T[:3, :3] = R; T[:3, 3] = t], for the 3x3 [R] and the
    three-entry [t] that the callers pass (numpy raises on other shapes). *)
Definition _form_transf (R : matrix) (t : vector) : matrix :=
  [ [at2 R 0 0; at2 R 0 1; at2 R 0 2; nth 0 t f0];
    [at2 R 1 0; at2 R 1 1; at2 R 1 2; nth 1 t f0];
    [at2 R 2 0; at2 R 2 1; at2 R 2 2; nth 2 t f0];
    [f0; f0; f0; f1] ].

(** *** get_matches *)

(** The loop [for m, n in matches] run on the list [good_matches] built so
    far.  Unpacking an entry that does not have exactly two elements raises
    [ValueError]; the appends made before that stay in the list. *)
Fixpoint ratio_loop (matches : list (list (DMatch F))) (good_matches : list (DMatch F))
  : list (DMatch F) * option Py.exn :=
  match matches with
  | [] => (good_matches, None)
  | [m; n] :: rest =>
      if flt (distance m) (fmul lit_0_5 (distance n))
      then ratio_loop rest (good_matches ++ [m])
      else ratio_loop rest good_matches
  | _ :: _ => (good_matches, Some Py.ValueError)
  end.

(** [try: <loop> except ValueError: pass] *)
Definition ratio_test (matches : list (list (DMatch F))) : list (DMatch F) :=
  fst (ratio_loop matches []).

Definition get_matches (img1 img2 : Frame) : Py.result (option (points * points)) :=
  let '(kp1, des1) := detectAndCompute api img1 in
  let '(kp2, des2) := detectAndCompute api img2 in
  if ((6 <? length kp1) && (6 <? length kp2))%bool then
    let matches := knnMatch api des1 des2 in
    let good_matches := ratio_test matches in
    q1 <- Py.comprehension
            (fun m => kp <- Py.index kp1 (queryIdx m) ;; Py.Ok (pt kp)) good_matches ;;
    q2 <- Py.comprehension
            (fun m => kp <- Py.index kp2 (trainIdx m) ;; Py.Ok (pt kp)) good_matches ;;
    Py.Ok (Some (q1, q2))
  else Py.Ok None.

(** *** decomp_essential_mat

    The points [q1], [q2] are float32 arrays, so the homogeneous points
    that [cv2.triangulatePoints] returns are float32 as well: [Q1] and the
    distances in it are computed in single precision, while [T] is float64
    and so are [hom_Q2], [Q2] and the distances in it. *)

(** Lines 113-114: the mean of the element-wise ratio of the consecutive
    distances in the two views.  [Q1] is a float32 array, [Q2] a float64
    array; the quotient of a float32 by a float64 array is a float64 array. *)
Definition relative_scale_of (Q1 Q2 : matrix) : F :=
  np_mean (map2 fdiv (map fup (consecutive_dists float32 Q1))
                     (consecutive_dists float64 Q2)).

Definition sum_z_cal_relative_scale (self : VisualOdometry) (q1 q2 : points)
           (R : matrix) (t : vector) : nat * F :=
  let T := _form_transf R t in
  let P' := matmul (concat_zero_col (K self)) T in
  let hom_Q1 := triangulatePoints api (P self) P' (points_T q1) (points_T q2) in
  let hom_Q2 := matmul T (astype64 hom_Q1) in
  let Q1 := unhomogenize float32 hom_Q1 in
  let Q2 := unhomogenize float64 hom_Q2 in
  let sum_of_pos_z_Q1 := count_pos (row Q1 2) in
  let sum_of_pos_z_Q2 := count_pos (row Q2 2) in
  let relative_scale := relative_scale_of Q1 Q2 in
  (sum_of_pos_z_Q1 + sum_of_pos_z_Q2, relative_scale).

(** [np.squeeze] of the 3x1 translation returned by OpenCV. *)
Definition np_squeeze (t : matrix) : vector := concat t.

(** [pairs = [[R1, t], [R1, -t], [R2, t], [R2, -t]]] *)
Definition pairs (E : matrix) : list (matrix * vector) :=
  let '(R1, R2, t) := decomposeEssentialMat api E in
  let t := np_squeeze t in
  [(R1, t); (R1, map fopp t); (R2, t); (R2, map fopp t)].

(** The loop filling [z_sums] and [relative_scales]. *)
Definition evaluate (self : VisualOdometry) (q1 q2 : points)
           (ps : list (matrix * vector)) : list (nat * F) :=
  map (fun p => sum_z_cal_relative_scale self q1 q2 (fst p) (snd p)) ps.

Definition z_sums (self : VisualOdometry) (E : matrix) (q1 q2 : points) : list nat :=
  map fst (evaluate self q1 q2 (pairs E)).

Definition relative_scales (self : VisualOdometry) (E : matrix) (q1 q2 : points)
  : list F :=
  map snd (evaluate self q1 q2 (pairs E)).

Definition right_pair_idx (self : VisualOdometry) (E : matrix) (q1 q2 : points) : nat :=
  np_argmax (z_sums self E q1 q2).

(** [t[~np.isfinite(t)] = 0.00001] *)
Definition clamp_nonfinite (t : vector) : vector :=
  map (fun x => if isfinite x then x else lit_1e_5) t.

Definition decomp_essential_mat (self : VisualOdometry) (E : matrix) (q1 q2 : points)
  : (matrix * vector) * VisualOdometry :=
  let idx := right_pair_idx self E q1 q2 in
  let right_pair := nth idx (pairs E) ([], []) in
  let relative_scale := nth idx (relative_scales self E q1 q2) f0 in
  let R1 := fst right_pair in
  let t := snd right_pair in
  let t := map (fun x => fmul x relative_scale) t in
  let t := clamp_nonfinite t in
  let T := _form_transf R1 t in
  let P' := matmul (concat_zero_col (K self)) T in
  let hom_Q1 := triangulatePoints api P' P' (points_T q1) (points_T q2) in
  let hom_Q2 := matmul T (astype64 hom_Q1) in
  let Q1 := unhomogenize float32 hom_Q1 in
  let Q2 := unhomogenize float64 hom_Q2 in
  ((R1, t),
   {| K := K self; extrinsic := extrinsic self; P := P self;
      world_points := world_points self ++ [Q1] |}).

(** *** get_pose *)

(** The call is modelled where [cv2.findEssentialMat] and the geometry
    routines return; an OpenCV error would leave [get_pose] before the
    transform is built. *)
Definition get_pose (self : VisualOdometry) (q1 q2 : points)
  : matrix * VisualOdometry :=
  let E := findEssentialMat api q1 q2 (K self) in
  let '((R, t), self') := decomp_essential_mat self E q1 q2 in
  let transformation_matrix := _form_transf R t in
  (transformation_matrix, self').

End VisualOdometry.

(** ** The ROS node: matrix_to_quaternion, image_callback and the main block *)

Module FrameIds.
Import String.
Local Open Scope string_scope.
Definition odom : string := "odom".
Definition camera : string := "camera".
End FrameIds.

Section Node.

Context {F : Type} `{Arith F}.
Context {Frame Desc Msg : Type}.
Variable api : externals F Frame Desc Msg.

Local Abbreviation vector := (list F).
Local Abbreviation matrix := (list (list F)).
Local Abbreviation points := (list (F * F)).

(** [rvec] has shape (3, 1); its entries are used one by one. *)
Definition matrix_to_quaternion (m : matrix) : vector :=
  let rvec := Rodrigues api (map (firstn 3) (firstn 3 m)) in
  let half i := fdiv (nth i rvec f0) (fof_nat 2) in
  let s i := np_sin api (half i) in
  let c i := np_cos api (half i) in
  let qx := fsub (fmul (fmul (s 0) (c 1)) (c 2)) (fmul (fmul (c 0) (s 1)) (s 2)) in
  let qy := fadd (fmul (fmul (c 0) (s 1)) (c 2)) (fmul (fmul (s 0) (c 1)) (s 2)) in
  let qz := fsub (fmul (fmul (c 0) (c 1)) (s 2)) (fmul (fmul (s 0) (s 1)) (c 2)) in
  let qw := fadd (fmul (fmul (c 0) (c 1)) (c 2)) (fmul (fmul (s 0) (s 1)) (s 2)) in
  [qx; qy; qz; qw].

(** The fields of [nav_msgs/Odometry] that the node writes.  [stamp] is a
    ROS time in nanoseconds. *)
Record Odometry : Type := {
  stamp : Z;
  frame_id : String.string;
  child_frame_id : String.string;
  position : F * F * F;
  orientation : F * F * F * F
}.

(** [Odometry()] *)
Definition Odometry_default : Odometry :=
  {| stamp := 0;
     frame_id := String.EmptyString;
     child_frame_id := String.EmptyString;
     position := (f0, f0, f0);
     orientation := (f0, f0, f0, f0) |}.

(** The module globals of the script, the [VisualOdometry] instance among
    them, and the messages handed to [vo_pub.publish] so far (oldest
    first). *)
Record globals : Type := {
  vo : VisualOdometry (F := F);
  process_frames : bool;
  cur_pose : matrix;
  old_frame : option Frame;
  new_frame : option Frame;
  odometry : Odometry;
  published : list Odometry
}.

(** [np.identity(4)] *)
Definition np_identity4 : matrix :=
  [[f1; f0; f0; f0]; [f0; f1; f0; f0]; [f0; f0; f1; f0]; [f0; f0; f0; f1]].

(** The state set up by the [__main__] block before the first callback. *)
Definition main (intrinsic : matrix) : globals :=
  {| vo := __init__ intrinsic;
     process_frames := false;
     cur_pose := np_identity4;
     old_frame := None;
     new_frame := None;
     odometry := Odometry_default;
     published := [] |}.

(** [q.all()]: every element of the array is non-zero. *)
Definition np_all (q : points) : bool :=
  forallb (fun p => (truthy (fst p) && truthy (snd p))%bool) q.

(** The test on line 189. *)
Definition publish_gate (q1 q2 : points) : bool :=
  ((20 <? length q1) && (20 <? length q2) && Bool.eqb (np_all q1) (np_all q2))%bool.

(** Lines 190-204: fill the shared [odometry] message and publish it. *)
Definition emit (g : globals) (new : Frame) (now : Z) (q1 q2 : points) : globals :=
  let '(transf, vo') := get_pose api (vo g) q1 q2 in
  let cur_quat := matrix_to_quaternion (map (firstn 3) (cur_pose g)) in
  let msg :=
    {| stamp := now;
       frame_id := FrameIds.odom;
       child_frame_id := FrameIds.camera;
       position := (fdiv (at2 transf 0 3) (fof_nat 100),
                    fdiv (at2 transf 1 3) (fof_nat 100),
                    fdiv (at2 transf 2 3) (fof_nat 100));
       orientation := (nth 0 cur_quat f0, nth 1 cur_quat f0,
                       nth 2 cur_quat f0, nth 3 cur_quat f0) |} in
  {| vo := vo';
     process_frames := process_frames g;
     cur_pose := cur_pose g;
     old_frame := old_frame g;
     new_frame := Some new;
     odometry := msg;
     published := published g ++ [msg] |}.

(** Lines 205-206. *)
Definition finish (g : globals) (new : Frame) : globals :=
  {| vo := vo g;
     process_frames := true;
     cur_pose := cur_pose g;
     old_frame := Some new;
     new_frame := Some new;
     odometry := odometry g;
     published := published g |}.

Definition set_new_frame (g : globals) (new : Frame) : globals :=
  {| vo := vo g;
     process_frames := process_frames g;
     cur_pose := cur_pose g;
     old_frame := old_frame g;
     new_frame := Some new;
     odometry := odometry g;
     published := published g |}.

(** One delivery of an image.  [now] is what [rospy.get_rostime()] returns
    during the call.  The result is the globals after the call and the
    exception that left the callback, if any. *)
Definition image_callback (g : globals) (new_image : Msg) (now : Z)
  : globals * option Py.exn :=
  let new := flip api (imgmsg_to_cv2 api new_image) in
  if process_frames g then
    match old_frame g with
    | None =>
        (* [detectAndCompute(None, None)] finds no keypoint, so
           [get_matches] returns [(None, None)] *)
        (finish g new, None)
    | Some old =>
        match get_matches api old new with
        | Py.Raise e => (set_new_frame g new, Some e)
        | Py.Ok None => (finish g new, None)
        | Py.Ok (Some (q1, q2)) =>
            if publish_gate q1 q2
            then (finish (emit g new now q1 q2) new, None)
            else (finish g new, None)
        end
    end
  else (finish g new, None).

(** The node fed with a sequence of images; an exception that leaves the
    callback is logged by rospy and the node goes on. *)
Fixpoint spin (g : globals) (deliveries : list (Msg * Z)) : globals :=
  match deliveries with
  | [] => g
  | (m, now) :: rest => spin (fst (image_callback g m now)) rest
  end.

End Node.

(** ** A concrete environment on binary64

    Stand-ins for the camera, the detector, the matcher and the geometry
    routines, small enough to evaluate.  A frame is a number that names its
    content; the callback receives it unchanged. *)

Module Scenario.

Definition num (z : Z) : spec_float := B64.of_Z z.

(** Keypoints [(x0 + i, y0 + i)] for [i < n]. *)
Definition diagonal (n : nat) (x0 y0 : Z) : list (KeyPoint spec_float) :=
  map (fun i => {| pt := (num (x0 + Z.of_nat i), num (y0 + Z.of_nat i)) |}) (seq 0 n).

(** Frame 0 is a solid colour and has no keypoints, frame 1 has only five,
    frame 3 has a keypoint on the image border [x = 0]; every other frame
    has 25 keypoints away from the border. *)
Definition detect (f : nat) : list (KeyPoint spec_float) * nat :=
  match f with
  | 0 => ([], f)
  | 1 => (diagonal 5 10 20, f)
  | 3 => (diagonal 25 0 20, f)
  | _ => (diagonal 25 10 20, f)
  end.

Definition neighbours (i : nat) : list (DMatch spec_float) :=
  [ {| queryIdx := Z.of_nat i; trainIdx := Z.of_nat i; distance := num 1 |};
    {| queryIdx := Z.of_nat i; trainIdx := Z.of_nat (S i); distance := num 4 |} ].

(** The matcher pairs keypoint [i] with keypoint [i], the runner-up being
    four times as far.  Queried with the descriptors of frame 4 it finds a
    single neighbour for the second descriptor. *)
Definition knn (des1 des2 : nat) : list (list (DMatch spec_float)) :=
  map (fun i => if ((des1 =? 4) && (i =? 1))%bool
                then firstn 1 (neighbours i) else neighbours i)
      (seq 0 25).

Definition eye3 : list (list spec_float) :=
  [[num 1; num 0; num 0]; [num 0; num 1; num 0]; [num 0; num 0; num 1]].

(** A half turn about the x axis and a quarter turn about the z axis. *)
Definition Rx180 : list (list spec_float) :=
  [[num 1; num 0; num 0]; [num 0; num (-1); num 0]; [num 0; num 0; num (-1)]].
Definition Rz90 : list (list spec_float) :=
  [[num 0; num (-1); num 0]; [num 1; num 0; num 0]; [num 0; num 0; num 1]].

Definition essential (q1 q2 : list (spec_float * spec_float))
           (k : list (list spec_float)) : list (list spec_float) :=
  [[num 0; num 0; num 0]; [num 0; num 0; num (-1)]; [num 0; num 1; num 0]].

Definition decompose (E : list (list spec_float))
  : list (list spec_float) * list (list spec_float) * list (list spec_float) :=
  (Rx180, Rz90, [[num 1]; [num 0]; [num 0]]).

(** Homogeneous points [(x, y, d, 1)] over the first view's pixels, the
    depth [d] being the entry [P2[0, 3]] of the second projection. *)
Definition triangulate (P1 P2 x1 x2 : list (list spec_float))
  : list (list spec_float) :=
  [ row x1 0; row x1 1;
    map (fun _ => at2 P2 0 3) (row x1 0);
    map (fun _ => num 1) (row x1 0) ].

(** The vector of the skew part of the matrix, and the first terms of the
    sine and cosine series. *)
Definition rodrigues (m : list (list spec_float)) : list spec_float :=
  [ fdiv (fsub (at2 m 2 1) (at2 m 1 2)) (num 2);
    fdiv (fsub (at2 m 0 2) (at2 m 2 0)) (num 2);
    fdiv (fsub (at2 m 1 0) (at2 m 0 1)) (num 2) ].
Definition sin1 (x : spec_float) : spec_float := x.
Definition cos1 (x : spec_float) : spec_float :=
  fsub (num 1) (fdiv (fmul x x) (num 2)).

Definition api : externals spec_float nat nat nat :=
  {| detectAndCompute := detect;
     knnMatch := knn;
     findEssentialMat := essential;
     decomposeEssentialMat := decompose;
     triangulatePoints := triangulate;
     Rodrigues := rodrigues;
     np_sin := sin1;
     np_cos := cos1;
     flip := fun f => f;
     imgmsg_to_cv2 := fun m => m |}.

Definition start : globals (F := spec_float) (Frame := nat) := main eye3.

(** The pixel coordinates of the 25 keypoints of an ordinary frame, and of
    the frame with a keypoint on the border. *)
Definition pixels : list (spec_float * spec_float) :=
  map (fun k => pt k) (diagonal 25 10 20).
Definition border_pixels : list (spec_float * spec_float) :=
  map (fun k => pt k) (diagonal 25 0 20).

(** The node after it has received frame 2 as its first image. *)
Definition after_first_frame : globals (F := spec_float) (Frame := nat) :=
  spin api start [(2, 100%Z)].


(** The pixels (3 i, 4 i) for i < 25, consecutive ones at distance 5, and
    the same list with its first correspondence repeated. *)
Definition grid : list (spec_float * spec_float) :=
  map (fun i => (num (3 * Z.of_nat i), num (4 * Z.of_nat i))) (seq 0 25).
Definition repeated_grid : list (spec_float * spec_float) :=
  (num 0, num 0) :: grid.


End Scenario.

(** ** Vocabulary of the specification *)

Section SpecVocabulary.

Context {F : Type} `{Arith F}.
Context {Frame Desc Msg : Type}.
Variable api : externals F Frame Desc Msg.

Local Abbreviation vector := (list F).
Local Abbreviation matrix := (list (list F)).
Local Abbreviation points := (list (F * F)).

(** The homogeneous points triangulated for a candidate [(R, t)], in
    camera 1's frame. *)
Definition triangulated (self : VisualOdometry) (q1 q2 : points)
           (c : matrix * vector) : matrix :=
  let T := _form_transf (fst c) (snd c) in
  triangulatePoints api (P self) (matmul (concat_zero_col (K self)) T)
                    (points_T q1) (points_T q2).

(** Cheirality score of a candidate: points with [z > 0] in camera 1's
    frame plus points with [z > 0] once re-expressed by the candidate's
    transform. *)
Definition cheirality_score (self : VisualOdometry) (q1 q2 : points)
           (c : matrix * vector) : nat :=
  let hom := triangulated self q1 q2 c in
  let hom2 := matmul (_form_transf (fst c) (snd c)) (astype64 hom) in
  count_pos (row (unhomogenize float32 hom) 2)
  + count_pos (row (unhomogenize float64 hom2) 2).

(** The relative scale the loop associates with a candidate. *)
Definition candidate_scale (self : VisualOdometry) (q1 q2 : points)
           (c : matrix * vector) : F :=
  snd (sum_z_cal_relative_scale api self q1 q2 (fst c) (snd c)).

(** Point [i] of a 3xN point array, and the Euclidean distance between
    two points of an array of element type [d]: the square root of the sum
    of the squared coordinate differences. *)
Definition column (Q : matrix) (i : nat) : vector := map (fun r => nth i r f0) Q.

Definition euclid (d : dtype) (p q : vector) : F :=
  sqrt_in d (fold_left (add_in d)
               (map (fun x => mul_in d x x) (map2 (sub_in d) p q)) f0).


(** Entry [(i, j)] of an array, and of the 4x4 transform made of a rotation
    [R] and a translation [t]: [R] in the upper left block, [t] in the last
    column, (0, 0, 0, 1) in the last row. *)
Definition entry (m : matrix) (i j : nat) : F := nth j (nth i m []) f0.

Definition transform_entry (R : matrix) (t : vector) (i j : nat) : F :=
  match i, j with
  | 3, 3 => f1
  | 3, _ => f0
  | _, 3 => nth i t f0
  | _, _ => entry R i j
  end.

(** The second camera's projection matrix K [I | 0] T of a candidate, entry
    by entry, the four products of an entry being added from 0 in order. *)
Definition second_projection (Km R : matrix) (t : vector) : matrix :=
  map (fun i =>
         map (fun j =>
                fadd (fadd (fadd (fadd f0 (fmul (entry Km i 0) (transform_entry R t 0 j)))
                                 (fmul (entry Km i 1) (transform_entry R t 1 j)))
                           (fmul (entry Km i 2) (transform_entry R t 2 j)))
                     (fmul f0 (transform_entry R t 3 j)))
             [0; 1; 2; 3])
      [0; 1; 2].

(** The homogeneous points that the triangulation returns for a candidate:
    first camera [self.P], second camera the candidate's projection, the
    pixels of the correspondences as two rows of x and y coordinates. *)
Definition candidate_points (self : VisualOdometry) (q1 q2 : points)
           (c : matrix * vector) : matrix :=
  triangulatePoints api (P self) (second_projection (K self) (fst c) (snd c))
                    [map fst q1; map snd q1] [map fst q2; map snd q2].

(** Depth of point [j] in camera 1's frame: z / w, in single precision. *)
Definition depth_cam1 (hom : matrix) (j : nat) : F :=
  fdiv32 (entry hom 2 j) (entry hom 3 j).

(** Coordinate [i] of point [j] once multiplied by the candidate's
    transform (in double precision, the four products being added from 0 in
    order), and its depth in camera 2's frame. *)
Definition moved (R : matrix) (t : vector) (hom : matrix) (i j : nat) : F :=
  fadd (fadd (fadd (fadd f0 (fmul (transform_entry R t i 0) (fup (entry hom 0 j))))
                   (fmul (transform_entry R t i 1) (fup (entry hom 1 j))))
             (fmul (transform_entry R t i 2) (fup (entry hom 2 j))))
       (fmul (transform_entry R t i 3) (fup (entry hom 3 j))).

Definition depth_cam2 (R : matrix) (t : vector) (hom : matrix) (j : nat) : F :=
  fdiv (moved R t hom 2 j) (moved R t hom 3 j).

(** How many of the points [0 .. n-1] have a depth greater than 0. *)
Definition in_front (depth : nat -> F) (n : nat) : nat :=
  length (filter (fun j => flt f0 (depth j)) (seq 0 n)).

(** The cheirality score of a candidate with [n] triangulated points. *)
Definition front_score (self : VisualOdometry) (q1 q2 : points) (n : nat)
           (c : matrix * vector) : nat :=
  in_front (depth_cam1 (candidate_points self q1 q2 c)) n
  + in_front (depth_cam2 (fst c) (snd c) (candidate_points self q1 q2 c)) n.

(** A camera matrix of three rows of three entries. *)
Definition three_by_three (Km : matrix) : Prop :=
  length Km = 3 /\ Forall (fun r => length r = 3) Km.

(** The four candidates made of two rotations and a translation
    (t0, t1, t2). *)
Definition four_candidates (R1 R2 : matrix) (t0 t1 t2 : F)
  : list (matrix * vector) :=
  [ (R1, [t0; t1; t2]); (R1, [fopp t0; fopp t1; fopp t2]);
    (R2, [t0; t1; t2]); (R2, [fopp t0; fopp t1; fopp t2]) ].

(** The statement that the pair returned is one of the candidates. *)
Definition returns_a_candidate (self : VisualOdometry) (E : matrix) (q1 q2 : points)
  : Prop :=
  In (fst (decomp_essential_mat api self E q1 q2)) (pairs api E).

(** The orientation fields written from a rotation (or pose) matrix. *)
Definition quaternion_of (m : matrix) : F * F * F * F :=
  let q := matrix_to_quaternion api m in
  (nth 0 q f0, nth 1 q f0, nth 2 q f0, nth 3 q f0).

(** The statement that a call of [get_pose] leaves no triangulated points
    behind: the stored list is as before the call, or empty. *)
Definition retains_no_world_points (self : VisualOdometry) (q1 q2 : points) : Prop :=
  let after := world_points (snd (get_pose api self q1 q2)) in
  after = world_points self \/ after = [].

(** The statement that an entry of the matcher's result with another
    number of neighbours than two costs that entry only: the matches kept
    are those of the two-neighbour entries that pass the ratio test. *)
Definition passes_ratio (e : list (DMatch F)) : bool :=
  match e with
  | [m; n] => flt (distance m) (fmul lit_0_5 (distance n))
  | _ => false
  end.

Definition skips_only_bad_entries (matches : list (list (DMatch F))) : Prop :=
  ratio_test matches = map (fun e => hd {| queryIdx := 0; trainIdx := 0; distance := f0 |} e)
                           (filter passes_ratio matches).


(** The statement that a published orientation is the quaternion of the
    rotation block of the transform resolved in the same cycle. *)
Definition orientation_from_cycle_transform
           (g : globals (F := F) (Frame := Frame)) (new_image : Msg) (now : Z) : Prop :=
  forall old q1 q2 o,
    old_frame g = Some old ->
    get_matches api old (flip api (imgmsg_to_cv2 api new_image)) = Py.Ok (Some (q1, q2)) ->
    published (fst (image_callback api g new_image now)) = published g ++ [o] ->
    orientation o = quaternion_of (fst (get_pose api (vo g) q1 q2)).

(** The same [VisualOdometry] object holding other world points. *)
Definition with_world_points (self : VisualOdometry) (wp : list matrix)
  : VisualOdometry :=
  {| K := K self; extrinsic := extrinsic self; P := P self; world_points := wp |}.

End SpecVocabulary.

(** ** camera_node.py *)

Section CameraNode.

Context {Frame Msg : Type}.

(** [bridge.cv2_to_imgmsg(frame, "bgr8")] *)
Variable cv2_to_imgmsg : Frame -> Msg.

(** What one pass of the loop [while not rospy.is_shutdown()] meets: the
    node has been shut down, or it has not and [cap.read()] returns
    [(ret, frame)]. *)
Inductive tick : Type :=
| Shutdown
| Read (ret : bool) (frame : Frame).

(** The messages handed to [pub.publish] so far, oldest first, and whether
    [cap.release()] has run. *)
Record camera_state : Type := {
  sent : list Msg;
  released : bool
}.

(** [img_publisher] against the passes of the loop that the environment
    provides; when they run out the function is still inside its loop. *)
Fixpoint img_publisher (ticks : list tick) (out : list Msg) : camera_state :=
  match ticks with
  | [] => {| sent := out; released := false |}
  | Shutdown :: _ => {| sent := out; released := true |}
  | Read false _ :: _ => {| sent := out; released := true |}
  | Read true frame :: rest => img_publisher rest (out ++ [cv2_to_imgmsg frame])
  end.

End CameraNode.

(** ** Further vocabulary *)

Section MoreVocabulary.

Context {F : Type} `{Arith F}.

(** The entries of the matcher's result up to the first one that does not
    hold exactly two neighbours. *)
Fixpoint two_neighbour_prefix (matches : list (list (DMatch F)))
  : list (list (DMatch F)) :=
  match matches with
  | [m; n] :: rest => [m; n] :: two_neighbour_prefix rest
  | _ => []
  end.

(** The best neighbour of an entry. *)
Definition best_neighbour (e : list (DMatch F)) : DMatch F :=
  hd {| queryIdx := 0; trainIdx := 0; distance := f0 |} e.

(** A homogeneous point array of four rows of [n] entries. *)
Definition four_by (n : nat) (hom : list (list F)) : Prop :=
  exists xs ys zs ws,
    hom = [xs; ys; zs; ws] /\
    length xs = n /\ length ys = n /\ length zs = n /\ length ws = n.

End MoreVocabulary.

(** * Properties *)

(** ** np.argmax *)

Lemma argmax_from_spec (l pre : list nat) (best_i best : nat) :
  best_i < length pre ->
  nth best_i pre 0 = best ->
  (forall j, j < length pre -> nth j pre 0 <= best) ->
  (forall j, j < best_i -> nth j pre 0 < best) ->
  let r := argmax_from best_i best (length pre) l in
  r < length (pre ++ l) /\
  (forall j, j < length (pre ++ l) -> nth j (pre ++ l) 0 <= nth r (pre ++ l) 0) /\
  (forall j, j < r -> nth j (pre ++ l) 0 < nth r (pre ++ l) 0).
Proof.
  revert pre best_i best.
  induction l as [|x l IH]; intros pre best_i best Hlt Hnth Hmax Hfirst; cbn [argmax_from].
  - rewrite app_nil_r. rewrite Hnth. repeat split; auto.
  - assert (Hlen : length (pre ++ [x]) = S (length pre))
      by (rewrite length_app; simpl; lia).
    replace (pre ++ x :: l) with ((pre ++ [x]) ++ l)
      by (rewrite <- app_assoc; reflexivity).
    destruct (best <? x) eqn:Hcmp.
    + apply Nat.ltb_lt in Hcmp.
      rewrite <- Hlen.
      apply IH.
      * lia.
      * rewrite app_nth2 by lia. rewrite Nat.sub_diag. reflexivity.
      * intros j Hj. rewrite Hlen in Hj.
        destruct (Nat.eq_dec j (length pre)) as [->|Hne].
        -- rewrite app_nth2 by lia. rewrite Nat.sub_diag. simpl. lia.
        -- rewrite app_nth1 by lia. specialize (Hmax j). lia.
      * intros j Hj.
        rewrite app_nth1 by lia. specialize (Hmax j). lia.
    + apply Nat.ltb_ge in Hcmp.
      rewrite <- Hlen.
      apply IH.
      * lia.
      * rewrite app_nth1 by lia. exact Hnth.
      * intros j Hj. rewrite Hlen in Hj.
        destruct (Nat.eq_dec j (length pre)) as [->|Hne].
        -- rewrite app_nth2 by lia. rewrite Nat.sub_diag. simpl. lia.
        -- rewrite app_nth1 by lia. apply Hmax. lia.
      * intros j Hj. rewrite app_nth1 by lia. apply Hfirst. lia.
Qed.

Lemma np_argmax_spec (l : list nat) :
  l <> [] ->
  np_argmax l < length l /\
  (forall j, j < length l -> nth j l 0 <= nth (np_argmax l) l 0) /\
  (forall j, j < np_argmax l -> nth j l 0 < nth (np_argmax l) l 0).
Proof.
  destruct l as [|x l]; [congruence|]. intros _.
  unfold np_argmax.
  change (x :: l) with ([x] ++ l).
  change 1 with (length [x]).
  apply argmax_from_spec; simpl.
  - lia.
  - reflexivity.
  - intros [|j] Hj; [lia|lia].
  - intros j Hj. lia.
Qed.

Example np_argmax_tie : np_argmax [3; 5; 5; 1] = 1.
Proof. reflexivity. Qed.

Example np_argmax_all_equal : np_argmax [7; 7; 7; 7] = 0.
Proof. reflexivity. Qed.

(** ** Lists *)

Lemma map2_map_same {A B C D : Type} (f : B -> C -> D) (g : A -> B) (h : A -> C)
      (l : list A) :
  map2 f (map g l) (map h l) = map (fun x => f (g x) (h x)) l.
Proof.
  induction l as [|a l IH]; cbn [map2 map]; [reflexivity|].
  rewrite IH. reflexivity.
Qed.

(** ** The cheirality and scale resolver *)

Section ResolverProperties.

Context {F : Type} `{Arith F}.
Context {Frame Desc Msg : Type}.
Variable api : externals F Frame Desc Msg.

Local Abbreviation vector := (list F).
Local Abbreviation matrix := (list (list F)).
Local Abbreviation points := (list (F * F)).

Variable self : VisualOdometry (F := F).
Variable E : matrix.
Variables q1 q2 : points.

Lemma pairs_length : length (pairs api E) = 4.
Proof.
  unfold pairs. destruct (decomposeEssentialMat api E) as [[R1 R2] t].
  reflexivity.
Qed.

Lemma z_sums_scores :
  z_sums api self E q1 q2 = map (cheirality_score api self q1 q2) (pairs api E).
Proof.
  unfold z_sums, evaluate. rewrite map_map. apply map_ext.
  intros c. reflexivity.
Qed.

Lemma relative_scales_candidates :
  relative_scales api self E q1 q2
  = map (candidate_scale api self q1 q2) (pairs api E).
Proof.
  unfold relative_scales, evaluate. rewrite map_map. apply map_ext.
  intros c. reflexivity.
Qed.

Lemma nth_map_in_range {A B : Type} (f : A -> B) (l : list A) (i : nat) (d : A) (e : B) :
  i < length l -> nth i (map f l) e = f (nth i l d).
Proof.
  intros Hi. rewrite (nth_indep (map f l) e (f d)) by (rewrite length_map; exact Hi).
  apply map_nth.
Qed.

Lemma right_pair_idx_range : right_pair_idx api self E q1 q2 < 4.
Proof.
  unfold right_pair_idx.
  assert (Hlen : length (z_sums api self E q1 q2) = 4)
    by (rewrite z_sums_scores, length_map; apply pairs_length).
  destruct (np_argmax_spec (l := z_sums api self E q1 q2)) as [Hr _].
  - intros Hnil. rewrite Hnil in Hlen. discriminate.
  - lia.
Qed.

(** What [decomp_essential_mat] returns, in terms of the selected
    candidate. *)
Lemma decomp_essential_mat_returned :
  let best := nth (right_pair_idx api self E q1 q2) (pairs api E) ([], []) in
  fst (decomp_essential_mat api self E q1 q2)
  = (fst best,
     clamp_nonfinite
       (map (fun x => fmul x (candidate_scale api self q1 q2 best)) (snd best))).
Proof.
  intros best. unfold decomp_essential_mat. cbn [fst snd]. fold best.
  rewrite relative_scales_candidates.
  rewrite (nth_map_in_range (candidate_scale api self q1 q2) (pairs api E) ([], []) f0)
    by (rewrite pairs_length; apply right_pair_idx_range).
  reflexivity.
Qed.

(** The candidate's projection matrix, the triangulated points and the two
    counts of the score, entry by entry. *)
Lemma second_projection_matmul (Km R : matrix) (t : vector) :
  three_by_three Km ->
  matmul (concat_zero_col Km) (_form_transf R t) = second_projection Km R t.
Proof.
  intros [Hlen Hrows].
  destruct Km as [|r0 [|r1 [|r2 [|r3 Km]]]]; try discriminate Hlen.
  inversion Hrows as [|? ? H0 Hrows1]; subst.
  inversion Hrows1 as [|? ? H1 Hrows2]; subst.
  inversion Hrows2 as [|? ? H2 _]; subst.
  destruct r0 as [|a0 [|a1 [|a2 [|a3 r0]]]]; try discriminate H0.
  destruct r1 as [|b0 [|b1 [|b2 [|b3 r1]]]]; try discriminate H1.
  destruct r2 as [|c0 [|c1 [|c2 [|c3 r2]]]]; try discriminate H2.
  reflexivity.
Qed.

Lemma triangulated_candidate_points (c : matrix * vector) :
  three_by_three (K self) ->
  triangulated api self q1 q2 c = candidate_points api self q1 q2 c.
Proof.
  intros HK. unfold triangulated, candidate_points. cbv zeta.
  rewrite (second_projection_matmul (fst c) (snd c) HK). reflexivity.
Qed.

Lemma map2_seq {A B C : Type} (f : A -> B -> C) (da : A) (db : B)
      (l : list A) (l' : list B) (n : nat) :
  length l = n -> length l' = n ->
  map2 f l l' = map (fun j => f (nth j l da) (nth j l' db)) (seq 0 n).
Proof.
  revert l' n. induction l as [|a l IH]; intros [|b l'] n Hl Hl';
    cbn [length] in Hl, Hl'; subst n; try discriminate Hl'; [reflexivity|].
  injection Hl' as Hl'.
  cbn [map2 seq map nth]. f_equal.
  rewrite <- seq_shift, map_map. apply IH; [reflexivity|exact Hl'].
Qed.

Lemma count_pos_map (g : nat -> F) (l : list nat) :
  count_pos (map g l) = length (filter (fun j => flt f0 (g j)) l).
Proof.
  unfold count_pos. induction l as [|j l IH]; [reflexivity|].
  cbn [map filter]. destruct (flt f0 (g j)); cbn [length]; rewrite IH; reflexivity.
Qed.

Lemma count_in_camera_1 (xs ys zs ws : vector) (n : nat) :
  length zs = n -> length ws = n ->
  count_pos (row (unhomogenize float32 [xs; ys; zs; ws]) 2)
  = in_front (depth_cam1 [xs; ys; zs; ws]) n.
Proof.
  intros Hz Hw. unfold unhomogenize, row. cbn [firstn map nth div_in].
  rewrite (map2_seq fdiv32 f0 f0 zs ws Hz Hw).
  rewrite count_pos_map. reflexivity.
Qed.

Lemma count_in_camera_2 (R : matrix) (t xs ys zs ws : vector) (n : nat) :
  length xs = n -> length ys = n -> length zs = n -> length ws = n ->
  count_pos (row (unhomogenize float64
                    (matmul (_form_transf R t) (astype64 [xs; ys; zs; ws]))) 2)
  = in_front (depth_cam2 R t [xs; ys; zs; ws]) n.
Proof.
  intros Hx Hy Hz Hw.
  unfold unhomogenize, row, matmul, _form_transf, astype64.
  cbn [firstn map nth div_in].
  rewrite map2_map_same.
  unfold transpose, ncols. cbn [hd map]. rewrite length_map, Hx, map_map.
  rewrite (map_ext_in _ (depth_cam2 R t [xs; ys; zs; ws])).
  - rewrite count_pos_map. reflexivity.
  - intros j Hj. apply in_seq in Hj.
    rewrite !(nth_map_in_range fup _ f0 f0) by lia.
    reflexivity.
Qed.

(** The score that the loop computes for a candidate is the number of its
    triangulated points in front of camera 1 plus the number in front of
    camera 2. *)
Lemma score_counts_points_in_front (c : matrix * vector) (n : nat) :
  three_by_three (K self) ->
  four_by n (candidate_points api self q1 q2 c) ->
  cheirality_score api self q1 q2 c = front_score api self q1 q2 n c.
Proof.
  intros HK (xs & ys & zs & ws & Hhom & Hx & Hy & Hz & Hw).
  unfold cheirality_score, front_score. cbv zeta.
  rewrite (triangulated_candidate_points c HK), Hhom.
  rewrite (@count_in_camera_1 xs ys zs ws n Hz Hw).
  rewrite (@count_in_camera_2 (fst c) (snd c) xs ys zs ws n Hx Hy Hz Hw).
  reflexivity.
Qed.

Lemma pairs_four_candidates (t0 t1 t2 : F) :
  snd (decomposeEssentialMat api E) = [[t0]; [t1]; [t2]] ->
  pairs api E
  = four_candidates (fst (fst (decomposeEssentialMat api E)))
                    (snd (fst (decomposeEssentialMat api E))) t0 t1 t2.
Proof.
  unfold pairs. destruct (decomposeEssentialMat api E) as [[R1 R2] t]. cbn [fst snd].
  intros ->. reflexivity.
Qed.

(** C1, as the code has it.  With a 3x3 camera matrix, a 3x1 translation
    from the decomposition and [n] homogeneous points triangulated for each
    candidate, the candidate selected is the first one, in the order
    (R1, t), (R1, -t), (R2, t), (R2, -t), whose cheirality score is highest,
    the score being the number of its points with z / w > 0 in camera 1's
    frame plus the number with z / w > 0 once multiplied by its transform;
    the pair returned is that candidate's rotation and that candidate's
    translation multiplied by its relative scale, each component that is not
    finite being replaced by 0.00001. *)
Theorem decomp_essential_mat_first_max (t0 t1 t2 : F) (n : nat) :
  let cands := four_candidates (fst (fst (decomposeEssentialMat api E)))
                               (snd (fst (decomposeEssentialMat api E))) t0 t1 t2 in
  let score := front_score api self q1 q2 n in
  let idx := right_pair_idx api self E q1 q2 in
  let best := nth idx cands ([], []) in
  let scale := snd (sum_z_cal_relative_scale api self q1 q2 (fst best) (snd best)) in
  snd (decomposeEssentialMat api E) = [[t0]; [t1]; [t2]] ->
  three_by_three (K self) ->
  (forall c, In c cands -> four_by n (candidate_points api self q1 q2 c)) ->
  idx < 4 /\
  (forall c, In c cands -> score c <= score best) /\
  (forall j, j < idx -> score (nth j cands ([], [])) < score best) /\
  fst (decomp_essential_mat api self E q1 q2)
  = (fst best,
     map (fun x => if isfinite (fmul x scale) then fmul x scale else lit_1e_5)
         (snd best)).
Proof.
  intros cands score idx best scale Ht HK Hshape.
  assert (Hp : pairs api E = cands) by (apply pairs_four_candidates; exact Ht).
  assert (Hlen : length cands = 4) by reflexivity.
  assert (Hidx : idx < 4) by apply right_pair_idx_range.
  assert (Hz : z_sums api self E q1 q2 = map score cands).
  { rewrite z_sums_scores, Hp. apply map_ext_in. intros c Hc.
    apply score_counts_points_in_front; [exact HK|apply Hshape; exact Hc]. }
  assert (Hne : map score cands <> []) by discriminate.
  destruct (np_argmax_spec Hne) as (_ & Hmax & Hfirst).
  assert (Hi : np_argmax (map score cands) = idx).
  { unfold idx, right_pair_idx. rewrite Hz. reflexivity. }
  rewrite Hi in Hmax, Hfirst. rewrite length_map in Hmax.
  assert (Hbest : nth idx (map score cands) 0 = score best).
  { apply nth_map_in_range. lia. }
  split; [exact Hidx|]. split; [|split].
  - intros c Hc.
    destruct (In_nth cands c ([], []) Hc) as (j & Hj & Hcj).
    specialize (Hmax j Hj).
    rewrite (nth_map_in_range score cands ([], []) 0 Hj) in Hmax.
    rewrite Hcj, Hbest in Hmax. exact Hmax.
  - intros j Hj.
    specialize (Hfirst j Hj).
    rewrite (nth_map_in_range score cands ([], []) 0) in Hfirst by lia.
    rewrite Hbest in Hfirst. exact Hfirst.
  - rewrite decomp_essential_mat_returned. rewrite Hp. fold idx. fold best.
    unfold clamp_nonfinite, candidate_scale. fold scale.
    rewrite map_map. reflexivity.
Qed.

(** C5.  With a 3x1 translation (t0, t1, t2) from the decomposition of [E]
    and its two rotations R1 and R2, the candidate list is exactly
    (R1, t), (R1, -t), (R2, t), (R2, -t) with -t = (-t0, -t1, -t2); for a
    3x3 camera matrix and [n] points triangulated per candidate, the four
    scores that the loop collects are the scores of these four candidates
    in this order, each with its relative scale, and the selection is the
    argmax over the four. *)
Theorem decomp_essential_mat_four_candidates (t0 t1 t2 : F) (n : nat) :
  let R1 := fst (fst (decomposeEssentialMat api E)) in
  let R2 := snd (fst (decomposeEssentialMat api E)) in
  let t := [t0; t1; t2] in
  let t' := [fopp t0; fopp t1; fopp t2] in
  let score := front_score api self q1 q2 n in
  let scale c := snd (sum_z_cal_relative_scale api self q1 q2 (fst c) (snd c)) in
  snd (decomposeEssentialMat api E) = [[t0]; [t1]; [t2]] ->
  three_by_three (K self) ->
  (forall c, In c [(R1, t); (R1, t'); (R2, t); (R2, t')] ->
             four_by n (candidate_points api self q1 q2 c)) ->
  pairs api E = [(R1, t); (R1, t'); (R2, t); (R2, t')] /\
  z_sums api self E q1 q2
  = [score (R1, t); score (R1, t'); score (R2, t); score (R2, t')] /\
  relative_scales api self E q1 q2
  = [scale (R1, t); scale (R1, t'); scale (R2, t); scale (R2, t')] /\
  right_pair_idx api self E q1 q2
  = np_argmax [score (R1, t); score (R1, t'); score (R2, t); score (R2, t')] /\
  right_pair_idx api self E q1 q2 < 4.
Proof.
  intros R1 R2 t t' score scale Ht HK Hshape.
  assert (Hp : pairs api E = [(R1, t); (R1, t'); (R2, t); (R2, t')])
    by (apply pairs_four_candidates; exact Ht).
  assert (Hz : z_sums api self E q1 q2
               = [score (R1, t); score (R1, t'); score (R2, t); score (R2, t')]).
  { rewrite z_sums_scores, Hp. cbn [map].
    rewrite !(score_counts_points_in_front _ (n := n) HK)
      by (apply Hshape; cbn; auto).
    reflexivity. }
  split; [exact Hp|]. split; [exact Hz|]. split; [|split].
  - rewrite relative_scales_candidates, Hp. reflexivity.
  - unfold right_pair_idx. rewrite Hz. reflexivity.
  - apply right_pair_idx_range.
Qed.

Lemma form_transf_translation (R : matrix) (t : vector) (i : nat) :
  i < 3 -> at2 (_form_transf R t) i 3 = nth i t f0.
Proof.
  intros Hi. destruct i as [|[|[|i]]]; try reflexivity. lia.
Qed.

Lemma get_pose_decomp :
  let r := decomp_essential_mat api self (findEssentialMat api q1 q2 (K self)) q1 q2 in
  get_pose api self q1 q2 = (_form_transf (fst (fst r)) (snd (fst r)), snd r).
Proof.
  intros r. unfold get_pose. fold r. destruct r as [[R t] self']. reflexivity.
Qed.

Lemma decomp_essential_mat_state :
  let T := _form_transf (fst (fst (decomp_essential_mat api self E q1 q2)))
                        (snd (fst (decomp_essential_mat api self E q1 q2))) in
  let P' := matmul (concat_zero_col (K self)) T in
  snd (decomp_essential_mat api self E q1 q2)
  = with_world_points self
      (world_points self
       ++ [unhomogenize float32
             (triangulatePoints api P' P' (points_T q1) (points_T q2))]).
Proof. reflexivity. Qed.

End ResolverProperties.

Lemma scenario_candidate_points (q : list (spec_float * spec_float))
      (c : list (list spec_float) * list spec_float) :
  four_by (length q) (candidate_points Scenario.api (vo Scenario.start) q q c).
Proof.
  unfold four_by, candidate_points.
  exists (map fst q), (map snd q),
         (map (fun _ => at2 (second_projection (K (vo Scenario.start)) (fst c) (snd c)) 0 3)
              (map fst q)),
         (map (fun _ => Scenario.num 1) (map fst q)).
  split; [reflexivity|]. rewrite !length_map. repeat split.
Qed.

Lemma scenario_camera_matrix : three_by_three (K (vo Scenario.start)).
Proof. split; [reflexivity|repeat constructor]. Qed.

Lemma decomp_essential_mat_first_max_witness :
  let cands := four_candidates Scenario.Rx180 Scenario.Rz90
                               (Scenario.num 1) (Scenario.num 0) (Scenario.num 0) in
  let score := front_score Scenario.api (vo Scenario.start)
                           Scenario.pixels Scenario.pixels 25 in
  let idx := right_pair_idx Scenario.api (vo Scenario.start) []
                            Scenario.pixels Scenario.pixels in
  let best := nth idx cands ([], []) in
  let scale := snd (sum_z_cal_relative_scale Scenario.api (vo Scenario.start)
                      Scenario.pixels Scenario.pixels (fst best) (snd best)) in
  idx < 4 /\
  (forall c, In c cands -> score c <= score best) /\
  (forall j, j < idx -> score (nth j cands ([], [])) < score best) /\
  fst (decomp_essential_mat Scenario.api (vo Scenario.start) []
         Scenario.pixels Scenario.pixels)
  = (fst best,
     map (fun x => if isfinite (fmul x scale) then fmul x scale else lit_1e_5)
         (snd best)).
Proof.
  apply (@decomp_essential_mat_first_max _ _ _ _ _ Scenario.api (vo Scenario.start) []
           Scenario.pixels Scenario.pixels
           (Scenario.num 1) (Scenario.num 0) (Scenario.num 0) 25).
  - reflexivity.
  - exact scenario_camera_matrix.
  - intros c _. apply (scenario_candidate_points Scenario.pixels c).
Defined.

Lemma decomp_essential_mat_four_candidates_witness :
  pairs Scenario.api []
  = [ (Scenario.Rx180, [Scenario.num 1; Scenario.num 0; Scenario.num 0]);
      (Scenario.Rx180, [fopp (Scenario.num 1); fopp (Scenario.num 0); fopp (Scenario.num 0)]);
      (Scenario.Rz90, [Scenario.num 1; Scenario.num 0; Scenario.num 0]);
      (Scenario.Rz90, [fopp (Scenario.num 1); fopp (Scenario.num 0); fopp (Scenario.num 0)]) ] /\
  z_sums Scenario.api (vo Scenario.start) [] Scenario.pixels Scenario.pixels
  = map (front_score Scenario.api (vo Scenario.start) Scenario.pixels Scenario.pixels 25)
        (pairs Scenario.api []).
Proof.
  destruct (@decomp_essential_mat_four_candidates _ _ _ _ _ Scenario.api
              (vo Scenario.start) [] Scenario.pixels Scenario.pixels
              (Scenario.num 1) (Scenario.num 0) (Scenario.num 0) 25)
    as (Hp & Hz & _).
  - reflexivity.
  - exact scenario_camera_matrix.
  - intros c _. apply (scenario_candidate_points Scenario.pixels c).
  - split; [exact Hp|]. rewrite Hz, Hp. reflexivity.
Defined.

(** C1, as stated, fails.  For 26 correspondences of which the first is
    repeated the winning candidate is the third, (R2, t) with t = (1, 0, 0);
    the distance between the two coincident points is 0 in both views, the
    relative scale is NaN and the pair returned is
    (R2, (0.00001, 0.00001, 0.00001)), which is none of the four
    candidates. *)
Lemma decomp_essential_mat_returns_no_candidate :
  right_pair_idx Scenario.api (vo Scenario.start) []
                 Scenario.repeated_grid Scenario.repeated_grid = 2 /\
  fst (decomp_essential_mat Scenario.api (vo Scenario.start) []
         Scenario.repeated_grid Scenario.repeated_grid)
  = (Scenario.Rz90, [B64.eps; B64.eps; B64.eps]) /\
  ~ returns_a_candidate Scenario.api (vo Scenario.start) []
      Scenario.repeated_grid Scenario.repeated_grid.
Proof.
  split; [vm_compute; reflexivity|].
  split; [vm_compute; reflexivity|].
  unfold returns_a_candidate. vm_compute.
  intros [Hc|[Hc|[Hc|[Hc|[]]]]]; discriminate Hc.
Qed.

(** ** The clamp of non-finite translations, on binary64 *)

Section Binary64Resolver.

Context {Frame Desc Msg : Type}.
Variable api : externals spec_float Frame Desc Msg.

Lemma clamp_nonfinite_finite (t : list spec_float) :
  Forall (fun x => B64.is_finite x = true) (clamp_nonfinite t).
Proof.
  unfold clamp_nonfinite. induction t as [|x t IH]; simpl; constructor.
  - cbn [isfinite binary64]. destruct (B64.is_finite x) eqn:Hx.
    + exact Hx.
    + reflexivity.
  - exact IH.
Qed.

Lemma clamp_nonfinite_nth (t : list spec_float) (i : nat) :
  i < length t ->
  nth i (clamp_nonfinite t) f0
  = if B64.is_finite (nth i t f0) then nth i t f0 else B64.eps.
Proof.
  intros Hi. unfold clamp_nonfinite.
  rewrite (nth_map_in_range _ t f0 f0 Hi). reflexivity.
Qed.

(** C2.  The translation returned by [decomp_essential_mat] is the winning
    candidate's translation multiplied by its relative scale, in which each
    component that is not finite has been replaced by the double 0.00001
    and each finite component is kept; all its components are finite, and
    so are the three translation entries of the transform that [get_pose]
    builds from it. *)
Theorem scaled_translation_is_finite
        (self : VisualOdometry) (E : list (list spec_float))
        (q1 q2 : list (spec_float * spec_float)) :
  let best := nth (right_pair_idx api self E q1 q2) (pairs api E) ([], []) in
  let scaled :=
    map (fun x => SFmul 53 1024 x (candidate_scale api self q1 q2 best)) (snd best) in
  let t := snd (fst (decomp_essential_mat api self E q1 q2)) in
  length t = length scaled /\
  (forall i, i < length scaled ->
     nth i t f0 = if B64.is_finite (nth i scaled f0) then nth i scaled f0
                  else S754_finite false 5902958103587057 (-69)) /\
  Forall (fun x => B64.is_finite x = true) t /\
  (forall i, i < 3 ->
     B64.is_finite (at2 (fst (get_pose api self q1 q2)) i 3) = true).
Proof.
  intros best scaled t.
  assert (Ht : t = clamp_nonfinite scaled).
  { unfold t. rewrite decomp_essential_mat_returned. reflexivity. }
  split; [|split; [|split]].
  - rewrite Ht. unfold clamp_nonfinite. apply length_map.
  - intros i Hi. rewrite Ht. apply clamp_nonfinite_nth. exact Hi.
  - rewrite Ht. apply clamp_nonfinite_finite.
  - intros i Hi. rewrite get_pose_decomp. cbn [fst].
    rewrite form_transf_translation by exact Hi.
    set (t' := snd (fst (decomp_essential_mat api self
                           (findEssentialMat api q1 q2 (K self)) q1 q2))).
    assert (Hfin : Forall (fun x => B64.is_finite x = true) t').
    { unfold t'. rewrite decomp_essential_mat_returned.
      apply clamp_nonfinite_finite. }
    destruct (Nat.lt_ge_cases i (length t')) as [Hin|Hout].
    + rewrite Forall_forall in Hfin. apply Hfin. apply nth_In. exact Hin.
    + rewrite nth_overflow by exact Hout. reflexivity.
Qed.

End Binary64Resolver.

(** ** World points across calls *)

Section WorldPoints.

Context {F : Type} `{Arith F}.
Context {Frame Desc Msg : Type}.
Variable api : externals F Frame Desc Msg.

Local Abbreviation matrix := (list (list F)).
Local Abbreviation points := (list (F * F)).

Lemma get_pose_world_points (self : VisualOdometry) (q1 q2 : points) :
  let T := fst (get_pose api self q1 q2) in
  let P' := matmul (concat_zero_col (K self)) T in
  world_points (snd (get_pose api self q1 q2))
  = world_points self
    ++ [unhomogenize float32
          (triangulatePoints api P' P' (points_T q1) (points_T q2))].
Proof.
  cbv zeta. rewrite get_pose_decomp. cbn [fst snd].
  rewrite decomp_essential_mat_state. reflexivity.
Qed.

Lemma get_pose_ignores_world_points (self : VisualOdometry) (q1 q2 : points)
      (wp : list matrix) :
  fst (get_pose api (with_world_points self wp) q1 q2) = fst (get_pose api self q1 q2).
Proof.
  rewrite !get_pose_decomp. cbn [fst snd].
  rewrite !decomp_essential_mat_returned. reflexivity.
Qed.

Lemma emit_published (g : globals) (new : Frame) (now : Z) (q1 q2 : points) :
  published (emit api g new now q1 q2)
  = published g ++ [odometry (emit api g new now q1 q2)].
Proof.
  unfold emit. destruct (get_pose api (vo g) q1 q2) as [transf vo']. reflexivity.
Qed.

Lemma emit_vo (g : globals) (new : Frame) (now : Z) (q1 q2 : points) :
  vo (emit api g new now q1 q2) = snd (get_pose api (vo g) q1 q2).
Proof.
  unfold emit. destruct (get_pose api (vo g) q1 q2) as [transf vo']. reflexivity.
Qed.

Lemma emit_cur_pose (g : globals) (new : Frame) (now : Z) (q1 q2 : points) :
  cur_pose (emit api g new now q1 q2) = cur_pose g.
Proof.
  unfold emit. destruct (get_pose api (vo g) q1 q2) as [transf vo']. reflexivity.
Qed.

Lemma emit_orientation (g : globals) (new : Frame) (now : Z) (q1 q2 : points) :
  orientation (odometry (emit api g new now q1 q2))
  = quaternion_of api (map (firstn 3) (cur_pose g)).
Proof.
  unfold emit. destruct (get_pose api (vo g) q1 q2) as [transf vo']. reflexivity.
Qed.

(** Each delivery either leaves both the stored world points and the
    published poses as they are, or adds one entry to each. *)
Lemma image_callback_world_points_step (g : globals) (m : Msg) (now : Z) :
  let g' := fst (image_callback api g m now) in
  length (world_points (vo g')) + length (published g)
  = length (published g') + length (world_points (vo g)).
Proof.
  unfold image_callback.
  destruct (process_frames g); [|simpl; lia].
  destruct (old_frame g) as [old|]; [|simpl; lia].
  destruct (get_matches api old (flip api (imgmsg_to_cv2 api m))) as [[[q1 q2]|]|e];
    [|simpl; lia|simpl; lia].
  destruct (publish_gate q1 q2); [|simpl; lia].
  cbn [fst finish vo published].
  rewrite emit_published, emit_vo, get_pose_world_points.
  rewrite !length_app. simpl. lia.
Qed.

Lemma spin_world_points (ds : list (Msg * Z)) (g : globals) :
  length (world_points (vo (spin api g ds))) + length (published g)
  = length (published (spin api g ds)) + length (world_points (vo g)).
Proof.
  revert g. induction ds as [|[m now] ds IH]; intros g; cbn [spin].
  - lia.
  - specialize (IH (fst (image_callback api g m now))).
    pose proof (image_callback_world_points_step g m now) as Hstep.
    cbv zeta in Hstep. lia.
Qed.

(** C3, as the code has it.  A call of [get_pose] appends one point set
    to [self.world_points], the camera-1 points of the final
    re-triangulation, after the entries of all earlier calls, which stay;
    the stored sets are never read back, the transform returned is the
    same whatever the list holds; and over a run of the node from its
    initial state the list has one entry per published pose. *)
Theorem get_pose_appends_world_points (self : VisualOdometry) (q1 q2 : points) :
  let T := fst (get_pose api self q1 q2) in
  let P' := matmul (concat_zero_col (K self)) T in
  let Q1 := unhomogenize float32
              (triangulatePoints api P' P' (points_T q1) (points_T q2)) in
  world_points (snd (get_pose api self q1 q2)) = world_points self ++ [Q1] /\
  (forall wp, fst (get_pose api (with_world_points self wp) q1 q2) = T) /\
  (forall intrinsic ds,
      length (world_points (vo (spin api (main intrinsic) ds)))
      = length (published (spin api (main intrinsic) ds))).
Proof.
  intros T P' Q1. split; [|split].
  - apply get_pose_world_points.
  - intros wp. apply get_pose_ignores_world_points.
  - intros intrinsic ds.
    pose proof (spin_world_points ds (main intrinsic)) as Hrun.
    simpl in Hrun. lia.
Qed.

End WorldPoints.

(** C3, as stated, fails: the first call of [get_pose] on a fresh
    [VisualOdometry] object, with the 25 correspondences of the scenario,
    leaves a list that is neither the list before the call nor empty. *)
Lemma get_pose_retains_world_points :
  ~ retains_no_world_points Scenario.api (vo Scenario.start)
      Scenario.pixels Scenario.pixels.
Proof.
  unfold retains_no_world_points. cbv zeta.
  rewrite get_pose_world_points.
  change (world_points (vo Scenario.start)) with (@nil (list (list spec_float))).
  cbn [app]. intros [Hsame|Hempty]; discriminate.
Qed.

(** ** image_callback *)

Section CallbackProperties.

Context {F : Type} `{Arith F}.
Context {Frame Desc Msg : Type}.
Variable api : externals F Frame Desc Msg.

Local Abbreviation points := (list (F * F)).

(** The two ways a delivery can end as far as the publisher is concerned. *)
Lemma image_callback_cases (g : globals) (new_image : Msg) (now : Z) :
  let new := flip api (imgmsg_to_cv2 api new_image) in
  let g' := fst (image_callback api g new_image now) in
  (published g' = published g /\ odometry g' = odometry g /\ vo g' = vo g)
  \/ (exists old q1 q2,
        process_frames g = true /\ old_frame g = Some old /\
        get_matches api old new = Py.Ok (Some (q1, q2)) /\
        publish_gate q1 q2 = true /\
        published g' = published g ++ [odometry (emit api g new now q1 q2)]).
Proof.
  intros new g'. unfold g', image_callback. fold new.
  destruct (process_frames g) eqn:Hpf; [|left; repeat split].
  destruct (old_frame g) as [old|] eqn:Hold; [|left; repeat split].
  destruct (get_matches api old new) as [[[q1 q2]|]|e] eqn:Hm;
    [|left; repeat split|left; repeat split].
  destruct (publish_gate q1 q2) eqn:Hgate; [|left; repeat split].
  right. exists old, q1, q2.
  split; [reflexivity|]. split; [reflexivity|]. split; [exact Hm|].
  split; [exact Hgate|].
  cbn [fst finish published]. apply emit_published.
Qed.

Lemma image_callback_cur_pose (g : globals) (new_image : Msg) (now : Z) :
  cur_pose (fst (image_callback api g new_image now)) = cur_pose g.
Proof.
  unfold image_callback.
  destruct (process_frames g); [|reflexivity].
  destruct (old_frame g) as [old|]; [|reflexivity].
  destruct (get_matches api old (flip api (imgmsg_to_cv2 api new_image)))
    as [[[q1 q2]|]|e]; try reflexivity.
  destruct (publish_gate q1 q2); [|reflexivity].
  cbn [fst finish cur_pose]. apply emit_cur_pose.
Qed.

Lemma publish_gate_true (q1 q2 : points) :
  publish_gate q1 q2 = true ->
  20 < length q1 /\ 20 < length q2 /\ np_all q1 = np_all q2.
Proof.
  unfold publish_gate. intros Hg.
  apply andb_prop in Hg. destruct Hg as [Hg Heq].
  apply andb_prop in Hg. destruct Hg as [H1 H2].
  apply Nat.ltb_lt in H1. apply Nat.ltb_lt in H2.
  apply Bool.eqb_prop in Heq. auto.
Qed.

(** Every pose published over a run carries the quaternion of the pose
    matrix the run started with. *)
Lemma spin_orientation (ds : list (Msg * Z)) (g : globals) :
  let q := quaternion_of api (map (firstn 3) (cur_pose g)) in
  Forall (fun o => orientation o = q) (published g) ->
  Forall (fun o => orientation o = q) (published (spin api g ds)).
Proof.
  revert g. induction ds as [|[m now] ds IH]; intros g q Hg; cbn [spin].
  - exact Hg.
  - specialize (IH (fst (image_callback api g m now))). cbv zeta in IH.
    rewrite image_callback_cur_pose in IH. apply IH.
    destruct (image_callback_cases g m now) as [(Hp & _)|(old & q1 & q2 & _ & _ & _ & _ & Hp)];
      rewrite Hp.
    + exact Hg.
    + apply Forall_app. split; [exact Hg|].
      constructor; [|constructor]. apply emit_orientation.
Qed.

(** C7.  When feature matching returns NONE for the frame pair, or
    returns point sets of which one has fewer than 20 points, the callback
    ends without an exception, publishes nothing (the list of published
    poses and the shared message are as before), and only records the new
    frame as the previous one. *)
Theorem image_callback_skips_cycle
        (g : globals) (new_image : Msg) (now : Z) (old : Frame) :
  let new := flip api (imgmsg_to_cv2 api new_image) in
  let g' := fst (image_callback api g new_image now) in
  process_frames g = true ->
  old_frame g = Some old ->
  (get_matches api old new = Py.Ok None \/
   exists q1 q2, get_matches api old new = Py.Ok (Some (q1, q2)) /\
                 (length q1 < 20 \/ length q2 < 20)) ->
  snd (image_callback api g new_image now) = None /\
  published g' = published g /\
  odometry g' = odometry g /\
  vo g' = vo g /\
  old_frame g' = Some new /\
  process_frames g' = true.
Proof.
  intros new g' Hpf Hold Hm. unfold g', image_callback. fold new.
  rewrite Hpf, Hold.
  destruct Hm as [Hnone|(q1 & q2 & Hsome & Hshort)].
  - rewrite Hnone. repeat split.
  - rewrite Hsome.
    assert (Hgate : publish_gate q1 q2 = false).
    { unfold publish_gate.
      destruct Hshort as [Hs|Hs].
      - assert (Hlt : (20 <? length q1) = false) by (apply Nat.ltb_ge; lia).
        rewrite Hlt. reflexivity.
      - assert (Hlt : (20 <? length q2) = false) by (apply Nat.ltb_ge; lia).
        rewrite Hlt. rewrite andb_false_r. reflexivity. }
    rewrite Hgate. repeat split.
Qed.

End CallbackProperties.

Lemma image_callback_skips_cycle_witness :
  (snd (image_callback Scenario.api Scenario.after_first_frame 0 200) = None /\
   published (fst (image_callback Scenario.api Scenario.after_first_frame 0 200))
   = published Scenario.after_first_frame) /\
  (snd (image_callback Scenario.api (spin Scenario.api Scenario.start [(4, 100%Z)]) 2 200)
   = None /\
   published (fst (image_callback Scenario.api
                     (spin Scenario.api Scenario.start [(4, 100%Z)]) 2 200))
   = published (spin Scenario.api Scenario.start [(4, 100%Z)])).
Proof.
  split.
  - destruct (image_callback_skips_cycle Scenario.api Scenario.after_first_frame
                0 200 (old := 2) eq_refl eq_refl (or_introl eq_refl))
      as (Hexn & Hpub & _).
    split; [exact Hexn|exact Hpub].
  - assert (Hm : exists q1 q2,
               get_matches Scenario.api 4 2 = Py.Ok (Some (q1, q2)) /\
               (length q1 < 20 \/ length q2 < 20)).
    { eexists. eexists. split; [vm_compute; reflexivity|]. left. simpl. lia. }
    destruct (image_callback_skips_cycle Scenario.api
                (spin Scenario.api Scenario.start [(4, 100%Z)])
                2 200 (old := 4) eq_refl eq_refl (or_intror Hm))
      as (Hexn & Hpub & _).
    split; [exact Hexn|exact Hpub].
Defined.

(** ** The gate in front of the publisher, on binary64 *)

Section PublishGate.

Context {Frame Desc Msg : Type}.
Variable api : externals spec_float Frame Desc Msg.

Example pixels_all_nonzero : np_all Scenario.pixels = true.
Proof. vm_compute. reflexivity. Qed.

Example border_pixels_has_zero : np_all Scenario.border_pixels = false.
Proof. vm_compute. reflexivity. Qed.

(** C10.  A delivery changes the list of published poses only if the
    previous frame exists, feature matching returned two point sets, both
    longer than 20, and [q1.all() == q2.all()]; and there are point sets
    longer than 20 on both sides for which the last condition fails, so
    that a delivery whose matching returns them publishes nothing. *)
Theorem publish_requires_equal_all
        (g : globals) (new_image : Msg) (now : Z) :
  let new := flip api (imgmsg_to_cv2 api new_image) in
  let g' := fst (image_callback api g new_image now) in
  (published g' <> published g ->
   exists old q1 q2,
     process_frames g = true /\ old_frame g = Some old /\
     get_matches api old new = Py.Ok (Some (q1, q2)) /\
     20 < length q1 /\ 20 < length q2 /\ np_all q1 = np_all q2) /\
  (exists q1 q2 : list (spec_float * spec_float),
      20 < length q1 /\ 20 < length q2 /\ np_all q1 <> np_all q2 /\
      forall old,
        process_frames g = true -> old_frame g = Some old ->
        get_matches api old new = Py.Ok (Some (q1, q2)) ->
        published g' = published g).
Proof.
  intros new g'. split.
  - intros Hchanged.
    destruct (image_callback_cases api g new_image now)
      as [(Hp & _)|(old & q1 & q2 & Hpf & Hold & Hm & Hgate & _)].
    + contradiction.
    + exists old, q1, q2.
      destruct (publish_gate_true q1 q2 Hgate) as (H1 & H2 & Hall).
      repeat split; assumption.
  - exists Scenario.pixels, Scenario.border_pixels.
    split; [simpl; lia|]. split; [simpl; lia|]. split.
    + rewrite pixels_all_nonzero, border_pixels_has_zero. discriminate.
    + intros old Hpf Hold Hm.
      unfold g', image_callback. fold new. rewrite Hpf, Hold, Hm.
      assert (Hgate : publish_gate Scenario.pixels Scenario.border_pixels = false)
        by (vm_compute; reflexivity).
      rewrite Hgate. reflexivity.
Qed.

End PublishGate.

Lemma publish_requires_equal_all_witness :
  (exists old q1 q2,
      process_frames Scenario.after_first_frame = true /\
      old_frame Scenario.after_first_frame = Some old /\
      get_matches Scenario.api old 5 = Py.Ok (Some (q1, q2)) /\
      20 < length q1 /\ 20 < length q2 /\ np_all q1 = np_all q2) /\
  (get_matches Scenario.api 2 3
   = Py.Ok (Some (Scenario.pixels, Scenario.border_pixels)) /\
   published (fst (image_callback Scenario.api Scenario.after_first_frame 3 200))
   = published Scenario.after_first_frame).
Proof.
  split.
  - apply (proj1 (publish_requires_equal_all Scenario.api
                    Scenario.after_first_frame 5 200)).
    vm_compute. intros Heq. discriminate Heq.
  - split; vm_compute; reflexivity.
Defined.

(** ** The published orientation *)

(** C6 fails on the code.  Whatever the environment, every pose published
    over a run of the node from its initial state carries the quaternion of
    the identity pose [cur_pose], which no statement updates; in the
    scenario the second delivery resolves a transform whose rotation block
    is a quarter turn about z, with quaternion (0, 0, 0.5, 0.875) under the
    scenario's Rodrigues and sine/cosine, and publishes (0, 0, 0, 1). *)
Theorem orientation_is_stale_cur_pose :
  (forall (F : Type) (A : Arith F) (Frame Desc Msg : Type)
          (api : externals F Frame Desc Msg)
          (intrinsic : list (list F)) (ds : list (Msg * Z)),
      Forall (fun o => orientation o = quaternion_of api (map (firstn 3) np_identity4))
             (published (spin api (main intrinsic) ds))) /\
  (let g := Scenario.after_first_frame in
   let transf := fst (get_pose Scenario.api (vo g) Scenario.pixels Scenario.pixels) in
   get_matches Scenario.api 2 5 = Py.Ok (Some (Scenario.pixels, Scenario.pixels)) /\
   map (firstn 3) (firstn 3 transf) = Scenario.Rz90 /\
   quaternion_of Scenario.api transf
   = (S754_zero false, S754_zero false,
      S754_finite false 4503599627370496 (-53),
      S754_finite false 7881299347898368 (-53)) /\
   map (fun o => orientation o)
       (published (fst (image_callback Scenario.api g 5 200)))
   = [(S754_zero false, S754_zero false, S754_zero false,
       S754_finite false 4503599627370496 (-52))] /\
   ~ orientation_from_cycle_transform Scenario.api g 5 200).
Proof.
  split.
  - intros F A Frame Desc Msg api intrinsic ds.
    apply (spin_orientation (api := api) ds (main intrinsic)). simpl. constructor.
  - cbv zeta.
    split; [vm_compute; reflexivity|].
    split; [vm_compute; reflexivity|].
    split; [vm_compute; reflexivity|].
    split; [vm_compute; reflexivity|].
    intros Hclaim.
    assert (Hpub : exists o,
               published (fst (image_callback Scenario.api Scenario.after_first_frame 5 200))
               = published Scenario.after_first_frame ++ [o] /\
               orientation o = (S754_zero false, S754_zero false, S754_zero false,
                                S754_finite false 4503599627370496 (-52))).
    { eexists. split; vm_compute; reflexivity. }
    destruct Hpub as (o & Hpub & Ho).
    specialize (Hclaim 2 Scenario.pixels Scenario.pixels o).
    assert (Hq : orientation o
                 = quaternion_of Scenario.api
                     (fst (get_pose Scenario.api (vo Scenario.after_first_frame)
                             Scenario.pixels Scenario.pixels))).
    { apply Hclaim; [reflexivity|vm_compute; reflexivity|exact Hpub]. }
    rewrite Ho in Hq. vm_compute in Hq. discriminate Hq.
Qed.

(** ** get_matches *)

Section MatchProperties.

Context {F : Type} `{Arith F}.
Context {Frame Desc Msg : Type}.
Variable api : externals F Frame Desc Msg.

Lemma index_in_range {A : Type} (l : list A) (i : Z) (d : A) :
  (0 <= i < Z.of_nat (length l))%Z ->
  Py.index l i = Py.Ok (nth (Z.to_nat i) l d).
Proof.
  intros [Hlo Hhi]. unfold Py.index.
  assert (Hneg : (i <? 0)%Z = false) by (apply Z.ltb_ge; lia).
  rewrite Hneg.
  assert (Hge : (0 <=? i)%Z = true) by (apply Z.leb_le; lia).
  assert (Hlt : (i <? Z.of_nat (length l))%Z = true) by (apply Z.ltb_lt; lia).
  rewrite Hge, Hlt. cbn [andb].
  rewrite (nth_error_nth' l d) by lia. reflexivity.
Qed.

Lemma comprehension_total {A B : Type} (f : A -> Py.result B) (g : A -> B) (l : list A) :
  Forall (fun x => f x = Py.Ok (g x)) l ->
  Py.comprehension f l = Py.Ok (map g l).
Proof.
  induction 1 as [|x l Hx Hl IH]; cbn [Py.comprehension map].
  - reflexivity.
  - rewrite Hx. cbn [Py.bind]. rewrite IH. reflexivity.
Qed.

(** The loop over a prefix of well-formed entries followed by anything. *)
Lemma ratio_loop_app (pre rest : list (list (DMatch F))) (good : list (DMatch F)) :
  Forall (fun e => length e = 2) pre ->
  ratio_loop (pre ++ rest) good = ratio_loop rest (fst (ratio_loop pre good)).
Proof.
  intros Hpre. revert good.
  induction Hpre as [|e pre He Hpre IH]; intros good.
  - reflexivity.
  - destruct e as [|m [|n [|x e]]]; try discriminate He.
    cbn [app ratio_loop].
    destruct (flt (distance m) (fmul lit_0_5 (distance n))); apply IH.
Qed.

(** An entry that does not hold exactly two neighbours ends the loop: the
    result is what the entries before it gave, whatever follows. *)
Lemma ratio_test_stops_at_bad_entry
      (pre post : list (list (DMatch F))) (bad : list (DMatch F)) :
  Forall (fun e => length e = 2) pre ->
  length bad <> 2 ->
  ratio_test (pre ++ bad :: post) = ratio_test pre.
Proof.
  intros Hpre Hbad. unfold ratio_test.
  rewrite ratio_loop_app by exact Hpre.
  destruct bad as [|m [|n [|x e]]]; try reflexivity.
  contradiction Hbad. reflexivity.
Qed.

(** C8.  If one of the two frames has 6 keypoints or fewer, [get_matches]
    returns the pair (None, None); if both have more than 6 (and the
    matches kept by the ratio test index existing keypoints, as the
    matcher guarantees), it returns two point sequences, the points of
    the kept matches in the first and in the second frame. *)
Theorem get_matches_keypoint_threshold (img1 img2 : Frame) :
  let kp1 := fst (detectAndCompute api img1) in
  let kp2 := fst (detectAndCompute api img2) in
  let good :=
    ratio_test (knnMatch api (snd (detectAndCompute api img1))
                         (snd (detectAndCompute api img2))) in
  let nowhere := {| pt := (f0, f0) |} in
  (length kp1 <= 6 \/ length kp2 <= 6 -> get_matches api img1 img2 = Py.Ok None) /\
  (6 < length kp1 -> 6 < length kp2 ->
   Forall (fun m => (0 <= queryIdx m < Z.of_nat (length kp1))%Z /\
                    (0 <= trainIdx m < Z.of_nat (length kp2))%Z) good ->
   exists q1 q2,
     get_matches api img1 img2 = Py.Ok (Some (q1, q2)) /\
     q1 = map (fun m => pt (nth (Z.to_nat (queryIdx m)) kp1 nowhere)) good /\
     q2 = map (fun m => pt (nth (Z.to_nat (trainIdx m)) kp2 nowhere)) good).
Proof.
  intros kp1 kp2 good nowhere. unfold get_matches.
  subst kp1 kp2 good.
  destruct (detectAndCompute api img1) as [kp1 des1].
  destruct (detectAndCompute api img2) as [kp2 des2].
  cbn [fst snd]. split.
  - intros Hfew.
    assert (Hgate : ((6 <? length kp1) && (6 <? length kp2))%bool = false).
    { destruct Hfew as [Hk|Hk].
      - assert (Hb : (6 <? length kp1) = false) by (apply Nat.ltb_ge; lia).
        rewrite Hb. reflexivity.
      - assert (Hb : (6 <? length kp2) = false) by (apply Nat.ltb_ge; lia).
        rewrite Hb. apply andb_false_r. }
    rewrite Hgate. reflexivity.
  - intros H1 H2 Hidx.
    assert (Hb1 : (6 <? length kp1) = true) by (apply Nat.ltb_lt; lia).
    assert (Hb2 : (6 <? length kp2) = true) by (apply Nat.ltb_lt; lia).
    rewrite Hb1, Hb2. cbn [andb].
    eexists. eexists. split; [|split; reflexivity].
    rewrite (comprehension_total _
               (fun m => pt (nth (Z.to_nat (queryIdx m)) kp1 nowhere))).
    + cbn [Py.bind].
      rewrite (comprehension_total _
                 (fun m => pt (nth (Z.to_nat (trainIdx m)) kp2 nowhere))).
      * reflexivity.
      * eapply Forall_impl; [|exact Hidx]. intros m [_ Hm]. cbv beta.
        rewrite (index_in_range kp2 nowhere Hm). reflexivity.
    + eapply Forall_impl; [|exact Hidx]. intros m [Hm _]. cbv beta.
      rewrite (index_in_range kp1 nowhere Hm). reflexivity.
Qed.

End MatchProperties.

Lemma get_matches_keypoint_threshold_witness :
  get_matches Scenario.api 1 2 = Py.Ok None /\
  get_matches Scenario.api 2 0 = Py.Ok None /\
  exists q1 q2,
    get_matches Scenario.api 2 5 = Py.Ok (Some (q1, q2)) /\
    length q1 = 25 /\ length q2 = 25.
Proof.
  split; [|split].
  - apply (proj1 (get_matches_keypoint_threshold Scenario.api 1 2)).
    left. vm_compute. lia.
  - apply (proj1 (get_matches_keypoint_threshold Scenario.api 2 0)).
    right. vm_compute. lia.
  - destruct (proj2 (get_matches_keypoint_threshold Scenario.api 2 5))
      as (q1 & q2 & Hm & Hq1 & Hq2).
    + vm_compute. lia.
    + vm_compute. lia.
    + vm_compute. repeat (constructor; [split; split; congruence|]). constructor.
    + exists q1, q2. split; [exact Hm|].
      rewrite Hq1, Hq2. split; reflexivity.
Defined.

(** C4 fails on the code.  The matcher of the scenario returns, for the
    descriptors of frame 4, a one-neighbour entry in second place and 23
    two-neighbour entries after it that all pass the ratio test; the loop
    ends at the one-neighbour entry, so a single match is kept and
    [get_matches] returns one correspondence. *)
Theorem ratio_loop_drops_later_matches :
  let matches := Scenario.knn 4 2 in
  length (nth 1 matches []) = 1 /\
  length (skipn 2 matches) = 23 /\
  forallb passes_ratio (skipn 2 matches) = true /\
  ratio_test matches = ratio_test (firstn 1 matches) /\
  length (ratio_test matches) = 1 /\
  (exists p, get_matches Scenario.api 4 2 = Py.Ok (Some ([p], [p]))) /\
  ~ skips_only_bad_entries matches.
Proof.
  cbv zeta.
  split; [reflexivity|].
  split; [reflexivity|].
  split; [vm_compute; reflexivity|].
  split; [vm_compute; reflexivity|].
  split; [vm_compute; reflexivity|].
  split; [eexists; vm_compute; reflexivity|].
  unfold skips_only_bad_entries. intros Heq.
  apply (f_equal (@length _)) in Heq.
  vm_compute in Heq. discriminate Heq.
Qed.

(** ** The relative scale *)

Section ScaleAsMean.

Context {F : Type} `{Arith F}.

Local Abbreviation vector := (list F).
Local Abbreviation matrix := (list (list F)).

Lemma map2_removelast_tl {A B : Type} (f : A -> A -> B) (d : A) (l : list A) :
  map2 f (removelast l) (tl l)
  = map (fun i => f (nth i l d) (nth (S i) l d)) (seq 0 (length l - 1)).
Proof.
  induction l as [|a l IH]; [reflexivity|].
  destruct l as [|b r]; [reflexivity|].
  change (removelast (a :: b :: r)) with (a :: removelast (b :: r)).
  cbn [tl map2].
  change (tl (b :: r)) with r in IH. rewrite IH.
  replace (length (a :: b :: r) - 1) with (S (length (b :: r) - 1))
    by (cbn [length]; lia).
  cbn [seq map nth]. f_equal.
  rewrite <- seq_shift, map_map. reflexivity.
Qed.

Lemma map_map2 {A B C D : Type} (g : C -> D) (f : A -> B -> C) (l : list A) (l' : list B) :
  map g (map2 f l l') = map2 (fun a b => g (f a b)) l l'.
Proof.
  revert l'. induction l as [|a l IH]; intros [|b l']; cbn [map2 map]; try reflexivity.
  rewrite IH. reflexivity.
Qed.

Lemma map2_diag {A B : Type} (f : A -> A -> B) (l : list A) :
  map2 f l l = map (fun x => f x x) l.
Proof.
  induction l as [|a l IH]; cbn [map2 map]; [reflexivity|].
  rewrite IH. reflexivity.
Qed.

Lemma transpose_columns (Q : matrix) :
  transpose Q = map (column Q) (seq 0 (ncols Q)).
Proof. reflexivity. Qed.

(** The vectorised distances are the distances between point [i] and
    point [i + 1], for every [i] but the last. *)
Lemma consecutive_dists_pairs (d : dtype) (Q : matrix) :
  consecutive_dists d Q
  = map (fun i => euclid d (column Q i) (column Q (S i))) (seq 0 (ncols Q - 1)).
Proof.
  unfold consecutive_dists, norm_rows, msub.
  rewrite map_map2.
  rewrite (map2_removelast_tl _ [] (transpose Q)).
  rewrite transpose_columns, length_map, length_seq.
  apply map_ext_in. intros i Hi. apply in_seq in Hi.
  rewrite !(nth_map_in_range (column Q) (seq 0 (ncols Q)) 0 [])
    by (rewrite length_seq; lia).
  rewrite !seq_nth by lia. cbn [plus].
  unfold euclid, accumulate. rewrite map2_diag. reflexivity.
Qed.


End ScaleAsMean.

(** *** Equal distances on binary64 *)















(** ** The scenario, evaluated *)

(** The four candidates of the scenario score 25, 25, 50 and 0: the third,
    (R2, t), is selected. *)
Example scenario_scores :
  z_sums Scenario.api (vo Scenario.start) [] Scenario.pixels Scenario.pixels
  = [25; 25; 50; 0] /\
  right_pair_idx Scenario.api (vo Scenario.start) [] Scenario.pixels Scenario.pixels = 2 /\
  fst (fst (decomp_essential_mat Scenario.api (vo Scenario.start) []
              Scenario.pixels Scenario.pixels)) = Scenario.Rz90.
Proof. repeat split; vm_compute; reflexivity. Qed.

(** With a single correspondence there is no pair of consecutive points:
    the mean of no ratio is NaN, the scaled translation is NaN in every
    component and the clamp replaces all three. *)
Example scenario_clamp :
  let q := [(Scenario.num 1, Scenario.num 2)] in
  relative_scales Scenario.api (vo Scenario.start) [] q q
  = [S754_nan; S754_nan; S754_nan; S754_nan] /\
  snd (fst (decomp_essential_mat Scenario.api (vo Scenario.start) [] q q))
  = [B64.eps; B64.eps; B64.eps].
Proof. split; vm_compute; reflexivity. Qed.

(** The literal 0.00001 is the correctly rounded quotient 1 / 100000, and
    0.5 is 1 / 2. *)
Example literals_rounded :
  fdiv (B64.of_Z 1) (B64.of_Z 100000) = B64.eps /\
  fdiv (B64.of_Z 1) (B64.of_Z 2) = B64.half.
Proof. split; vm_compute; reflexivity. Qed.


(** * Further properties of the code *)

(** ** get_matches: what the ratio loop keeps *)

Section MatchExtras.

Context {F : Type} `{Arith F}.
Context {Frame Desc Msg : Type}.
Variable api : externals F Frame Desc Msg.

Lemma ratio_loop_prefix (matches : list (list (DMatch F))) (good : list (DMatch F)) :
  fst (ratio_loop matches good)
  = good ++ map best_neighbour (filter passes_ratio (two_neighbour_prefix matches)).
Proof.
  revert good. induction matches as [|e matches IH]; intros good.
  - cbn. rewrite app_nil_r. reflexivity.
  - destruct e as [|m [|n [|x e]]];
      try (cbn; rewrite app_nil_r; reflexivity).
    cbn [ratio_loop two_neighbour_prefix filter passes_ratio].
    destruct (flt (distance m) (fmul lit_0_5 (distance n))).
    + rewrite IH. cbn [map best_neighbour hd]. rewrite <- app_assoc. reflexivity.
    + apply IH.
Qed.

Lemma two_neighbour_prefix_all (matches : list (list (DMatch F))) :
  Forall (fun e => length e = 2) matches -> two_neighbour_prefix matches = matches.
Proof.
  induction 1 as [|e matches He Hall IH]; [reflexivity|].
  destruct e as [|m [|n [|x e]]]; try discriminate He.
  cbn [two_neighbour_prefix]. rewrite IH. reflexivity.
Qed.

Lemma two_neighbour_prefix_length (matches : list (list (DMatch F))) :
  length (two_neighbour_prefix matches) <= length matches.
Proof.
  induction matches as [|e matches IH]; [apply Nat.le_refl|].
  destruct e as [|m [|n [|x e]]]; cbn [two_neighbour_prefix length]; lia.
Qed.

Lemma filter_length_le {A : Type} (f : A -> bool) (l : list A) :
  length (filter f l) <= length l.
Proof.
  induction l as [|a l IH]; cbn [filter length]; [lia|].
  destruct (f a); cbn [length]; lia.
Qed.

Lemma ratio_test_length (matches : list (list (DMatch F))) :
  length (ratio_test matches) <= length matches.
Proof.
  unfold ratio_test. rewrite ratio_loop_prefix. cbn [app].
  rewrite length_map.
  pose proof (filter_length_le passes_ratio (two_neighbour_prefix matches)).
  pose proof (two_neighbour_prefix_length matches). lia.
Qed.

(** X1.  The matches kept by the ratio loop are, in the matcher's order,
    the best neighbours of the entries that pass the ratio test among the
    entries before the first one without exactly two neighbours; when every
    entry has two neighbours, they are the best neighbours of all entries
    that pass the test. *)
Theorem ratio_test_keeps_passing_prefix (matches : list (list (DMatch F))) :
  ratio_test matches
  = map best_neighbour (filter passes_ratio (two_neighbour_prefix matches)) /\
  (Forall (fun e => length e = 2) matches ->
   ratio_test matches = map best_neighbour (filter passes_ratio matches)).
Proof.
  assert (Hchar : ratio_test matches
                  = map best_neighbour
                        (filter passes_ratio (two_neighbour_prefix matches))).
  { unfold ratio_test. rewrite ratio_loop_prefix. reflexivity. }
  split; [exact Hchar|].
  intros Hall. rewrite Hchar, two_neighbour_prefix_all by exact Hall. reflexivity.
Qed.

Lemma comprehension_length {A B : Type} (f : A -> Py.result B) (l : list A) (ys : list B) :
  Py.comprehension f l = Py.Ok ys -> length ys = length l.
Proof.
  revert ys. induction l as [|x l IH]; intros ys; cbn [Py.comprehension].
  - intros Hok. injection Hok as <-. reflexivity.
  - destruct (f x) as [y|e]; cbn [Py.bind]; [|discriminate].
    destruct (Py.comprehension f l) as [zs|e]; cbn [Py.bind]; [|discriminate].
    intros Hok. injection Hok as <-. cbn [length]. rewrite (IH zs eq_refl).
    reflexivity.
Qed.

(** X2.  Whenever [get_matches] returns point sets, the two sets have the
    same length, the number of matches kept, which is at most the number of
    entries the matcher returned. *)
Theorem get_matches_equal_lengths
        (img1 img2 : Frame) (q1 q2 : list (F * F)) :
  get_matches api img1 img2 = Py.Ok (Some (q1, q2)) ->
  let matches := knnMatch api (snd (detectAndCompute api img1))
                          (snd (detectAndCompute api img2)) in
  length q1 = length q2 /\
  length q1 = length (ratio_test matches) /\
  length q1 <= length matches.
Proof.
  unfold get_matches.
  destruct (detectAndCompute api img1) as [kp1 des1].
  destruct (detectAndCompute api img2) as [kp2 des2].
  cbn [fst snd].
  destruct ((6 <? length kp1) && (6 <? length kp2))%bool; [|discriminate].
  destruct (Py.comprehension
              (fun m => kp <- Py.index kp1 (queryIdx m) ;; Py.Ok (pt kp))
              (ratio_test (knnMatch api des1 des2))) as [p1|e] eqn:H1;
    cbn [Py.bind]; [|discriminate].
  destruct (Py.comprehension
              (fun m => kp <- Py.index kp2 (trainIdx m) ;; Py.Ok (pt kp))
              (ratio_test (knnMatch api des1 des2))) as [p2|e] eqn:H2;
    cbn [Py.bind]; [|discriminate].
  intros Hok. injection Hok as <- <-. cbv zeta.
  apply comprehension_length in H1. apply comprehension_length in H2.
  pose proof (ratio_test_length (knnMatch api des1 des2)). lia.
Qed.

End MatchExtras.

Lemma ratio_test_keeps_passing_prefix_witness :
  ratio_test (Scenario.knn 2 5)
  = map best_neighbour (filter passes_ratio (Scenario.knn 2 5)).
Proof.
  apply (proj2 (ratio_test_keeps_passing_prefix (Scenario.knn 2 5))).
  unfold Scenario.knn.
  apply Forall_forall. intros e He.
  apply in_map_iff in He. destruct He as (i & <- & _).
  destruct ((2 =? 4) && (i =? 1))%bool eqn:Hc; [discriminate Hc|reflexivity].
Defined.

Lemma get_matches_equal_lengths_witness :
  length Scenario.pixels = length Scenario.pixels /\
  length Scenario.pixels = length (ratio_test (Scenario.knn 2 5)) /\
  length Scenario.pixels <= length (Scenario.knn 2 5).
Proof.
  apply (get_matches_equal_lengths Scenario.api 2 5
           (q1 := Scenario.pixels) (q2 := Scenario.pixels)).
  vm_compute. reflexivity.
Defined.

(** ** Runs of the node *)

Section RunExtras.

Context {F : Type} `{Arith F}.
Context {Frame Desc Msg : Type}.
Variable api : externals F Frame Desc Msg.

Local Abbreviation matrix := (list (list F)).
Local Abbreviation points := (list (F * F)).

Lemma emit_message (g : globals) (new : Frame) (now : Z) (q1 q2 : points) :
  let t := snd (fst (decomp_essential_mat api (vo g)
                       (findEssentialMat api q1 q2 (K (vo g))) q1 q2)) in
  let o := odometry (emit api g new now q1 q2) in
  stamp o = now /\
  frame_id o = FrameIds.odom /\
  child_frame_id o = FrameIds.camera /\
  position o = (fdiv (nth 0 t f0) (fof_nat 100),
                fdiv (nth 1 t f0) (fof_nat 100),
                fdiv (nth 2 t f0) (fof_nat 100)).
Proof.
  cbv zeta. unfold emit. rewrite get_pose_decomp.
  cbn [fst snd odometry stamp frame_id child_frame_id position].
  repeat split.
Qed.

Lemma get_pose_intrinsics (self : VisualOdometry) (q1 q2 : points) :
  K (snd (get_pose api self q1 q2)) = K self /\
  P (snd (get_pose api self q1 q2)) = P self /\
  extrinsic (snd (get_pose api self q1 q2)) = extrinsic self.
Proof.
  rewrite get_pose_decomp. cbn [snd].
  rewrite decomp_essential_mat_state. repeat split.
Qed.

Lemma image_callback_intrinsics (g : globals) (m : Msg) (now : Z) :
  let g' := fst (image_callback api g m now) in
  K (vo g') = K (vo g) /\ P (vo g') = P (vo g) /\ extrinsic (vo g') = extrinsic (vo g).
Proof.
  cbv zeta. unfold image_callback.
  destruct (process_frames g); [|repeat split].
  destruct (old_frame g) as [old|]; [|repeat split].
  destruct (get_matches api old (flip api (imgmsg_to_cv2 api m))) as [[[q1 q2]|]|e];
    [|repeat split|repeat split].
  destruct (publish_gate q1 q2); [|repeat split].
  cbn [fst finish vo]. rewrite emit_vo. apply get_pose_intrinsics.
Qed.

(** X3.  Over any run of the node the camera matrix [K], the first
    projection matrix [P] and the extrinsic block of the [VisualOdometry]
    object, and the global [cur_pose], stay what they were when the run
    began; from the initial state they are the loaded intrinsics,
    [K @ extrinsic] and the identity. *)
Theorem spin_keeps_calibration (ds : list (Msg * Z)) (g : globals) :
  (K (vo (spin api g ds)) = K (vo g) /\
   P (vo (spin api g ds)) = P (vo g) /\
   extrinsic (vo (spin api g ds)) = extrinsic (vo g) /\
   cur_pose (spin api g ds) = cur_pose g) /\
  (forall intrinsic,
      K (vo (spin api (main intrinsic) ds)) = intrinsic /\
      P (vo (spin api (main intrinsic) ds))
      = matmul intrinsic [[f1; f0; f0; f0]; [f0; f1; f0; f0]; [f0; f0; f1; f0]] /\
      cur_pose (spin api (main intrinsic) ds) = np_identity4).
Proof.
  assert (Hrun : forall ds g,
             K (vo (spin api g ds)) = K (vo g) /\
             P (vo (spin api g ds)) = P (vo g) /\
             extrinsic (vo (spin api g ds)) = extrinsic (vo g) /\
             cur_pose (spin api g ds) = cur_pose g).
  { clear ds g. induction ds as [|[m now] ds IH]; intros g; cbn [spin].
    - repeat split.
    - destruct (IH (fst (image_callback api g m now))) as (HK & HP & HE & HC).
      destruct (image_callback_intrinsics g m now) as (HK' & HP' & HE').
      rewrite HK, HP, HE, HC, HK', HP', HE', image_callback_cur_pose.
      repeat split. }
  split; [apply Hrun|].
  intros intrinsic. destruct (Hrun ds (main intrinsic)) as (HK & HP & _ & HC).
  rewrite HK, HP, HC. repeat split.
Qed.

Lemma image_callback_published_le (g : globals) (m : Msg) (now : Z) :
  let g' := fst (image_callback api g m now) in
  length (published g') <= S (length (published g)) /\
  (process_frames g = false ->
   published g' = published g /\ process_frames g' = true).
Proof.
  cbv zeta. split.
  - destruct (image_callback_cases api g m now)
      as [(Hp & _)|(old & q1 & q2 & _ & _ & _ & _ & Hp)]; rewrite Hp.
    + lia.
    + rewrite length_app. simpl. lia.
  - intros Hpf. unfold image_callback. rewrite Hpf. split; reflexivity.
Qed.

Lemma spin_published_le (ds : list (Msg * Z)) (g : globals) :
  length (published (spin api g ds)) <= length (published g) + length ds.
Proof.
  revert g. induction ds as [|[m now] ds IH]; intros g; cbn [spin length].
  - lia.
  - specialize (IH (fst (image_callback api g m now))).
    destruct (image_callback_published_le g m now) as [Hle _]. lia.
Qed.

(** X4.  The first image only primes the node: over a run from the initial
    state the number of poses published is at most the number of images
    delivered minus one (none for an empty or one-image run). *)
Theorem spin_publishes_less_than_delivered (intrinsic : matrix) (ds : list (Msg * Z)) :
  length (published (spin api (main intrinsic) ds)) <= length ds - 1.
Proof.
  destruct ds as [|[m now] ds]; cbn [spin length].
  - simpl. lia.
  - pose proof (spin_published_le ds (fst (image_callback api (main intrinsic) m now)))
      as Hrest.
    destruct (image_callback_published_le (main intrinsic) m now) as [_ Hfirst].
    destruct (Hfirst eq_refl) as [Hpub _].
    rewrite Hpub in Hrest.
    change (length (published (main intrinsic))) with 0 in Hrest. lia.
Qed.

Lemma spin_metadata (ds : list (Msg * Z)) (g : globals) (seen : list Z) :
  Forall (fun o => frame_id o = FrameIds.odom /\ child_frame_id o = FrameIds.camera /\
                   In (stamp o) seen) (published g) ->
  Forall (fun o => frame_id o = FrameIds.odom /\ child_frame_id o = FrameIds.camera /\
                   In (stamp o) (seen ++ map snd ds))
         (published (spin api g ds)).
Proof.
  revert g seen. induction ds as [|[m now] ds IH]; intros g seen Hg; cbn [spin map snd].
  - rewrite app_nil_r. exact Hg.
  - replace (seen ++ now :: map snd ds) with ((seen ++ [now]) ++ map snd ds)
      by (rewrite <- app_assoc; reflexivity).
    apply IH.
    assert (Hg' : Forall (fun o => frame_id o = FrameIds.odom /\
                                   child_frame_id o = FrameIds.camera /\
                                   In (stamp o) (seen ++ [now])) (published g)).
    { eapply Forall_impl; [|exact Hg]. intros o (H1 & H2 & H3).
      repeat split; try assumption. apply in_or_app. left. exact H3. }
    destruct (image_callback_cases api g m now)
      as [(Hp & _)|(old & q1 & q2 & _ & _ & _ & _ & Hp)]; rewrite Hp.
    + exact Hg'.
    + apply Forall_app. split; [exact Hg'|].
      constructor; [|constructor].
      destruct (emit_message g (flip api (imgmsg_to_cv2 api m)) now q1 q2)
        as (Hs & Hf & Hc & _).
      repeat split; try assumption.
      rewrite Hs. apply in_or_app. right. left. reflexivity.
Qed.

(** X5.  Every pose published over a run from the initial state is in frame
    "odom" with child frame "camera", and its stamp is the time read during
    one of the deliveries of that run. *)
Theorem spin_published_metadata (intrinsic : matrix) (ds : list (Msg * Z)) :
  Forall (fun o => frame_id o = FrameIds.odom /\
                   child_frame_id o = FrameIds.camera /\
                   In (stamp o) (map snd ds))
         (published (spin api (main intrinsic) ds)).
Proof.
  apply (spin_metadata ds (main intrinsic) []). constructor.
Qed.

(** X6.  When a delivery publishes, the message added is stamped with the
    time of that delivery and its position is one hundredth of the
    translation returned by [decomp_essential_mat] for the matched points of
    that frame pair, component by component. *)
Theorem published_position_is_scaled_translation
        (g : globals) (new_image : Msg) (now : Z) :
  let new := flip api (imgmsg_to_cv2 api new_image) in
  let g' := fst (image_callback api g new_image now) in
  published g' <> published g ->
  exists old q1 q2 o,
    old_frame g = Some old /\
    get_matches api old new = Py.Ok (Some (q1, q2)) /\
    published g' = published g ++ [o] /\
    odometry g' = o /\
    stamp o = now /\
    let t := snd (fst (decomp_essential_mat api (vo g)
                         (findEssentialMat api q1 q2 (K (vo g))) q1 q2)) in
    position o = (fdiv (nth 0 t f0) (fof_nat 100),
                  fdiv (nth 1 t f0) (fof_nat 100),
                  fdiv (nth 2 t f0) (fof_nat 100)).
Proof.
  intros new g' Hchanged.
  assert (Hcases := image_callback_cases api g new_image now).
  cbv zeta in Hcases. fold new in Hcases. fold g' in Hcases.
  destruct Hcases as [(Hp & _)|(old & q1 & q2 & Hpf & Hold & Hm & Hgate & Hp)].
  - contradiction.
  - exists old, q1, q2, (odometry (emit api g new now q1 q2)).
    destruct (emit_message g new now q1 q2) as (Hs & _ & _ & Hpos).
    split; [exact Hold|]. split; [exact Hm|]. split; [exact Hp|].
    split.
    + unfold g', image_callback. fold new. rewrite Hpf, Hold, Hm, Hgate.
      reflexivity.
    + split; [exact Hs|exact Hpos].
Qed.

Lemma image_callback_previous_frame (g : globals) (m : Msg) (now : Z) :
  (process_frames g = true <-> old_frame g <> None) ->
  let g' := fst (image_callback api g m now) in
  (process_frames g' = true <-> old_frame g' <> None).
Proof.
  intros Hinv. cbv zeta. unfold image_callback.
  assert (Hfin : forall (h : globals (F := F) (Frame := Frame)) (new : Frame),
             process_frames (finish h new) = true <-> old_frame (finish h new) <> None).
  { intros h new. cbn. split; [discriminate|reflexivity]. }
  destruct (process_frames g) eqn:Hpf; [|apply Hfin].
  destruct (old_frame g) as [old|] eqn:Hold; [|apply Hfin].
  destruct (get_matches api old (flip api (imgmsg_to_cv2 api m)))
    as [[[q1 q2]|]|e]; [| apply Hfin |].
  - destruct (publish_gate q1 q2); apply Hfin.
  - cbn. rewrite Hpf, Hold. split; [discriminate|reflexivity].
Qed.

Lemma spin_previous_frame (ds : list (Msg * Z)) (g : globals) :
  (process_frames g = true <-> old_frame g <> None) ->
  (process_frames (spin api g ds) = true <-> old_frame (spin api g ds) <> None).
Proof.
  revert g. induction ds as [|[m now] ds IH]; intros g Hinv; cbn [spin].
  - exact Hinv.
  - apply IH. apply image_callback_previous_frame. exact Hinv.
Qed.

(** X7.  After any run from the initial state [process_frames] is set
    exactly when a previous frame is stored: the two are assigned together
    at the end of a callback, so once frames are processed the matching is
    never given the initial [None] in place of the previous frame. *)
Theorem callback_has_previous_frame (intrinsic : matrix) (ds : list (Msg * Z)) :
  let g := spin api (main intrinsic) ds in
  (process_frames g = true <-> exists old, old_frame g = Some old) /\
  (ds = [] -> process_frames g = false /\ old_frame g = None).
Proof.
  intros g.
  assert (Hinv : process_frames g = true <-> old_frame g <> None).
  { apply spin_previous_frame. cbn. split; [discriminate|intros Hn; contradiction Hn; reflexivity]. }
  split.
  - rewrite Hinv. destruct (old_frame g) as [old|].
    + split; [intros _; exists old; reflexivity|intros _; discriminate].
    + split; [intros Hn; contradiction Hn; reflexivity|intros [old Hold]; discriminate Hold].
  - intros ->. split; reflexivity.
Qed.

End RunExtras.

Lemma published_position_is_scaled_translation_witness :
  exists old q1 q2 o,
    old_frame Scenario.after_first_frame = Some old /\
    get_matches Scenario.api old 5 = Py.Ok (Some (q1, q2)) /\
    published (fst (image_callback Scenario.api Scenario.after_first_frame 5 200))
    = published Scenario.after_first_frame ++ [o] /\
    odometry (fst (image_callback Scenario.api Scenario.after_first_frame 5 200)) = o /\
    stamp o = 200%Z /\
    position o
    = (fdiv (nth 0 (snd (fst (decomp_essential_mat Scenario.api
                                (vo Scenario.after_first_frame)
                                (findEssentialMat Scenario.api q1 q2
                                   (K (vo Scenario.after_first_frame))) q1 q2))) f0)
            (fof_nat 100),
       fdiv (nth 1 (snd (fst (decomp_essential_mat Scenario.api
                                (vo Scenario.after_first_frame)
                                (findEssentialMat Scenario.api q1 q2
                                   (K (vo Scenario.after_first_frame))) q1 q2))) f0)
            (fof_nat 100),
       fdiv (nth 2 (snd (fst (decomp_essential_mat Scenario.api
                                (vo Scenario.after_first_frame)
                                (findEssentialMat Scenario.api q1 q2
                                   (K (vo Scenario.after_first_frame))) q1 q2))) f0)
            (fof_nat 100)).
Proof.
  apply (published_position_is_scaled_translation Scenario.api
           Scenario.after_first_frame 5 200).
  vm_compute. intros Heq. discriminate Heq.
Defined.

Lemma callback_has_previous_frame_witness :
  exists old, old_frame (spin Scenario.api (main Scenario.eye3) [(2, 100%Z)]) = Some old.
Proof.
  destruct (callback_has_previous_frame Scenario.api Scenario.eye3 [(2, 100%Z)])
    as [Hold _].
  apply Hold. reflexivity.
Defined.

(** ** The transform returned by get_pose *)

Section TransformExtras.

Context {F : Type} `{Arith F}.
Context {Frame Desc Msg : Type}.
Variable api : externals F Frame Desc Msg.

Local Abbreviation matrix := (list (list F)).
Local Abbreviation points := (list (F * F)).

Lemma form_transf_rotation_block (R : matrix) (t : list F) :
  length R = 3 -> Forall (fun r => length r = 3) R ->
  map (firstn 3) (firstn 3 (_form_transf R t)) = R.
Proof.
  intros Hlen Hrows.
  destruct R as [|r0 [|r1 [|r2 [|r3 R]]]]; try discriminate Hlen.
  inversion Hrows as [|? ? H0 Hrows1]; subst.
  inversion Hrows1 as [|? ? H1 Hrows2]; subst.
  inversion Hrows2 as [|? ? H2 _]; subst.
  destruct r0 as [|a0 [|a1 [|a2 [|a3 r0]]]]; try discriminate H0.
  destruct r1 as [|b0 [|b1 [|b2 [|b3 r1]]]]; try discriminate H1.
  destruct r2 as [|c0 [|c1 [|c2 [|c3 r2]]]]; try discriminate H2.
  reflexivity.
Qed.

(** X8.  The matrix returned by [get_pose] always has four rows of four
    entries with bottom row (0, 0, 0, 1); its translation column holds the
    translation returned by [decomp_essential_mat]; and when the two
    rotations of the decomposition are 3x3, its rotation block is one of
    them, unchanged. *)
Theorem get_pose_transform_shape (self : VisualOdometry) (q1 q2 : points) :
  let E := findEssentialMat api q1 q2 (K self) in
  let R1 := fst (fst (decomposeEssentialMat api E)) in
  let R2 := snd (fst (decomposeEssentialMat api E)) in
  let t := snd (fst (decomp_essential_mat api self E q1 q2)) in
  let T := fst (get_pose api self q1 q2) in
  length T = 4 /\
  Forall (fun r => length r = 4) T /\
  row T 3 = [f0; f0; f0; f1] /\
  (forall i, i < 3 -> at2 T i 3 = nth i t f0) /\
  (length R1 = 3 -> Forall (fun r => length r = 3) R1 ->
   length R2 = 3 -> Forall (fun r => length r = 3) R2 ->
   map (firstn 3) (firstn 3 T) = R1 \/ map (firstn 3) (firstn 3 T) = R2).
Proof.
  intros E R1 R2 t T.
  assert (HT : T = _form_transf (fst (fst (decomp_essential_mat api self E q1 q2))) t).
  { unfold T. rewrite get_pose_decomp. reflexivity. }
  split; [rewrite HT; reflexivity|].
  split; [rewrite HT; repeat constructor|].
  split; [rewrite HT; reflexivity|].
  split; [intros i Hi; rewrite HT; apply form_transf_translation; exact Hi|].
  intros HR1 HR1' HR2 HR2'.
  assert (Hrot : fst (fst (decomp_essential_mat api self E q1 q2)) = R1 \/
                 fst (fst (decomp_essential_mat api self E q1 q2)) = R2).
  { rewrite decomp_essential_mat_returned. cbn [fst].
    pose proof (right_pair_idx_range api self E q1 q2) as Hidx.
    unfold pairs, R1, R2.
    destruct (decomposeEssentialMat api E) as [[A B] u]. cbn [fst snd].
    destruct (right_pair_idx api self E q1 q2) as [|[|[|[|i]]]];
      cbn [nth fst]; auto. lia. }
  destruct Hrot as [Hrot|Hrot]; rewrite HT, Hrot.
  - left. apply form_transf_rotation_block; assumption.
  - right. apply form_transf_rotation_block; assumption.
Qed.

Lemma map2_length {A B C : Type} (f : A -> B -> C) (l : list A) (l' : list B) :
  length (map2 f l l') = Nat.min (length l) (length l').
Proof.
  revert l'. induction l as [|a l IH]; intros [|b l']; cbn [map2 length]; try reflexivity.
  rewrite IH. reflexivity.
Qed.

Lemma count_pos_le (v : list F) : count_pos v <= length v.
Proof. unfold count_pos. apply filter_length_le. Qed.

Lemma unhomogenize_row_length (d : dtype) (hom : matrix) (i : nat) :
  length (row (unhomogenize d hom) i) <= length (row hom 3).
Proof.
  unfold unhomogenize, row.
  destruct (Nat.lt_ge_cases i (length (firstn 3 hom))) as [Hin|Hout].
  - rewrite (nth_map_in_range (fun r => map2 (div_in d) r (nth 3 hom []))
               (firstn 3 hom) [] [] Hin).
    rewrite map2_length. lia.
  - rewrite nth_overflow by (rewrite length_map; exact Hout). simpl. lia.
Qed.

(** X9.  When the triangulation returns four rows of [n] entries, one
    homogeneous point per correspondence, a candidate's cheirality score is
    at most [2 n]. *)
Theorem cheirality_score_bound
        (self : VisualOdometry) (q1 q2 : points) (c : matrix * list F) (n : nat) :
  four_by n (triangulated api self q1 q2 c) ->
  cheirality_score api self q1 q2 c <= 2 * n.
Proof.
  intros (xs & ys & zs & ws & Hhom & Hxs & _ & _ & Hws).
  unfold cheirality_score. cbv zeta. rewrite Hhom.
  set (hom := [xs; ys; zs; ws]).
  set (T := _form_transf (fst c) (snd c)).
  pose proof (count_pos_le (row (unhomogenize float32 hom) 2)) as H1.
  pose proof (unhomogenize_row_length float32 hom 2) as H1'.
  pose proof (count_pos_le (row (unhomogenize float64 (matmul T (astype64 hom))) 2)) as H2.
  pose proof (unhomogenize_row_length float64 (matmul T (astype64 hom)) 2) as H2'.
  assert (H3 : length (row (matmul T (astype64 hom)) 3) = n).
  { unfold T, _form_transf, matmul, row. cbn [map nth].
    rewrite length_map. unfold transpose. rewrite length_map, length_seq.
    unfold ncols, hom, astype64. cbn [map hd]. rewrite length_map. exact Hxs. }
  assert (H4 : length (row hom 3) = n) by exact Hws.
  lia.
Qed.

End TransformExtras.

Lemma get_pose_transform_shape_witness :
  map (firstn 3)
      (firstn 3 (fst (get_pose Scenario.api (vo Scenario.start)
                        Scenario.pixels Scenario.pixels)))
  = Scenario.Rx180 \/
  map (firstn 3)
      (firstn 3 (fst (get_pose Scenario.api (vo Scenario.start)
                        Scenario.pixels Scenario.pixels)))
  = Scenario.Rz90.
Proof.
  destruct (get_pose_transform_shape Scenario.api (vo Scenario.start)
              Scenario.pixels Scenario.pixels) as (_ & _ & _ & _ & Hrot).
  apply Hrot.
  - reflexivity.
  - repeat constructor.
  - reflexivity.
  - repeat constructor.
Defined.

Lemma cheirality_score_bound_witness :
  cheirality_score Scenario.api (vo Scenario.start) Scenario.pixels Scenario.pixels
                   (Scenario.Rz90, [Scenario.num 1; Scenario.num 0; Scenario.num 0])
  <= 2 * 25.
Proof.
  apply cheirality_score_bound.
  unfold four_by. do 4 eexists.
  split; [vm_compute; reflexivity|].
  repeat split.
Defined.

(** ** Degenerate scales and the identity orientation, on binary64 *)

Section Binary64Extras.

Context {Frame Desc Msg : Type}.
Variable api : externals spec_float Frame Desc Msg.

Lemma SFmul_nonfinite_scale (x s : spec_float) :
  B64.is_finite s = false -> B64.is_finite (SFmul 53 1024 x s) = false.
Proof.
  destruct s as [ss|ss| |ss ms es]; try discriminate; intros _;
    destruct x as [sx|sx| |sx mx ex]; reflexivity.
Qed.

(** X10.  When the relative scale of the winning candidate is infinite or
    NaN, every component of the returned translation is the constant
    0.00001, whatever the candidate's direction was. *)
Theorem nonfinite_scale_erases_translation
        (self : VisualOdometry) (E : list (list spec_float))
        (q1 q2 : list (spec_float * spec_float)) :
  let best := nth (right_pair_idx api self E q1 q2) (pairs api E) ([], []) in
  B64.is_finite (candidate_scale api self q1 q2 best) = false ->
  snd (fst (decomp_essential_mat api self E q1 q2))
  = map (fun _ => S754_finite false 5902958103587057 (-69)) (snd best).
Proof.
  intros best Hscale.
  rewrite decomp_essential_mat_returned. cbn [snd]. fold best.
  unfold clamp_nonfinite. rewrite map_map. apply map_ext. intros x.
  cbn [isfinite fmul binary64 lit_1e_5].
  change B64.prec with 53%Z. change B64.emax with 1024%Z.
  rewrite (SFmul_nonfinite_scale x _ Hscale). reflexivity.
Qed.

Lemma map2_nil_r {A B C : Type} (f : A -> B -> C) (l : list A) : map2 f l [] = [].
Proof. destruct l; reflexivity. Qed.

Lemma relative_scale_few_points (Q1 Q2 : list (list spec_float)) :
  ncols Q1 <= 1 \/ ncols Q2 <= 1 -> relative_scale_of Q1 Q2 = S754_nan.
Proof.
  intros Hfew. unfold relative_scale_of.
  rewrite !consecutive_dists_pairs.
  destruct Hfew as [Hn|Hn].
  - replace (ncols Q1 - 1) with 0 by lia. reflexivity.
  - replace (ncols Q2 - 1) with 0 by lia. cbn [seq map].
    rewrite map2_nil_r. reflexivity.
Qed.

(** X11.  When the triangulation of a candidate returns fewer than two
    points there is no pair of consecutive points: the candidate's relative
    scale is the mean of an empty array, NaN. *)
Theorem scale_of_fewer_than_two_points
        (self : VisualOdometry) (q1 q2 : list (spec_float * spec_float))
        (c : list (list spec_float) * list spec_float) (n : nat) :
  four_by n (triangulated api self q1 q2 c) ->
  n <= 1 ->
  candidate_scale api self q1 q2 c = S754_nan.
Proof.
  intros (xs & ys & zs & ws & Hhom & Hxs & _ & _ & Hws) Hn.
  unfold candidate_scale, sum_z_cal_relative_scale. cbn [snd].
  apply relative_scale_few_points. left.
  change (triangulatePoints api (P self)
            (matmul (concat_zero_col (K self)) (_form_transf (fst c) (snd c)))
            (points_T q1) (points_T q2))
    with (triangulated api self q1 q2 c).
  rewrite Hhom. unfold unhomogenize, ncols, row. cbn [firstn map hd nth].
  rewrite map2_length. lia.
Qed.

(** X12.  If [cv2.Rodrigues] maps the identity rotation to the zero vector
    and the sine and cosine of 0 are 0 and 1, every pose published over a
    run from the initial state has orientation (0, 0, 0, 1). *)
Theorem published_orientation_is_identity
        (intrinsic : list (list spec_float)) (ds : list (Msg * Z)) :
  Rodrigues api [[f1; f0; f0]; [f0; f1; f0]; [f0; f0; f1]] = [f0; f0; f0] ->
  np_sin api f0 = f0 ->
  np_cos api f0 = f1 ->
  Forall (fun o => orientation o = (f0, f0, f0, f1))
         (published (spin api (main intrinsic) ds)).
Proof.
  intros Hrod Hsin Hcos.
  assert (Hq : quaternion_of api
                 (map (firstn 3) (cur_pose (main (Frame := Frame) intrinsic)))
               = (f0, f0, f0, f1)).
  { unfold quaternion_of, matrix_to_quaternion.
    change (map (firstn 3)
              (firstn 3 (map (firstn 3) (cur_pose (main (Frame := Frame) intrinsic)))))
      with [[f1; f0; f0]; [f0; f1; f0]; [f0; f0; (f1 : spec_float)]].
    rewrite Hrod. cbn [nth].
    change (fdiv f0 (fof_nat 2)) with (f0 : spec_float).
    rewrite Hsin, Hcos. vm_compute. reflexivity. }
  pose proof (spin_orientation (api := api) ds (main intrinsic)) as Hrun.
  cbv zeta in Hrun. rewrite Hq in Hrun. apply Hrun. constructor.
Qed.

End Binary64Extras.

Lemma nonfinite_scale_erases_translation_witness :
  snd (fst (decomp_essential_mat Scenario.api (vo Scenario.start) []
              [(Scenario.num 1, Scenario.num 2)] [(Scenario.num 1, Scenario.num 2)]))
  = map (fun _ => S754_finite false 5902958103587057 (-69))
        (snd (nth (right_pair_idx Scenario.api (vo Scenario.start) []
                     [(Scenario.num 1, Scenario.num 2)]
                     [(Scenario.num 1, Scenario.num 2)])
                  (pairs Scenario.api []) ([], []))).
Proof.
  apply (nonfinite_scale_erases_translation Scenario.api (vo Scenario.start) []
           [(Scenario.num 1, Scenario.num 2)] [(Scenario.num 1, Scenario.num 2)]).
  vm_compute. reflexivity.
Defined.

Lemma scale_of_fewer_than_two_points_witness :
  candidate_scale Scenario.api (vo Scenario.start)
                  [(Scenario.num 1, Scenario.num 2)] [(Scenario.num 1, Scenario.num 2)]
                  (Scenario.Rz90, [Scenario.num 1; Scenario.num 0; Scenario.num 0])
  = S754_nan.
Proof.
  apply (scale_of_fewer_than_two_points Scenario.api (vo Scenario.start)
           [(Scenario.num 1, Scenario.num 2)] [(Scenario.num 1, Scenario.num 2)]
           (Scenario.Rz90, [Scenario.num 1; Scenario.num 0; Scenario.num 0]) (n := 1)).
  - unfold four_by. do 4 eexists. split; [vm_compute; reflexivity|]. repeat split.
  - apply Nat.le_refl.
Defined.

Lemma published_orientation_is_identity_witness :
  Forall (fun o => orientation o = (f0, f0, f0, f1))
         (published (spin Scenario.api (main Scenario.eye3) [(2, 100%Z); (5, 200%Z)])).
Proof.
  apply (published_orientation_is_identity Scenario.api Scenario.eye3
           [(2, 100%Z); (5, 200%Z)]).
  - vm_compute. reflexivity.
  - vm_compute. reflexivity.
  - vm_compute. reflexivity.
Defined.

(** ** camera_node.py: the publishing loop *)

Section CameraExtras.

Context {Frame Msg : Type}.
Variable cv2_to_imgmsg : Frame -> Msg.

Lemma img_publisher_good_reads (frames : list Frame) (rest : list (tick (Frame := Frame)))
      (out : list Msg) :
  img_publisher cv2_to_imgmsg (map (Read true) frames ++ rest) out
  = img_publisher cv2_to_imgmsg rest (out ++ map cv2_to_imgmsg frames).
Proof.
  revert out. induction frames as [|f frames IH]; intros out; cbn [map app img_publisher].
  - rewrite app_nil_r. reflexivity.
  - rewrite IH, <- app_assoc. reflexivity.
Qed.

(** X17.  [img_publisher] publishes the frames read before the first
    failed read or the shutdown, converted one by one and in order, then
    releases the camera; nothing that the camera would deliver afterwards is
    published (in particular nothing at all when the first read fails); as
    long as neither happens the camera is not released. *)
Theorem img_publisher_stops_at_first_failure
        (frames : list Frame) (later : list (tick (Frame := Frame))) :
  (forall f, img_publisher cv2_to_imgmsg
               (map (Read true) frames ++ Read false f :: later) []
             = {| sent := map cv2_to_imgmsg frames; released := true |}) /\
  img_publisher cv2_to_imgmsg (map (Read true) frames ++ Shutdown :: later) []
  = {| sent := map cv2_to_imgmsg frames; released := true |} /\
  img_publisher cv2_to_imgmsg (map (Read true) frames) []
  = {| sent := map cv2_to_imgmsg frames; released := false |}.
Proof.
  split; [|split].
  - intros f. rewrite img_publisher_good_reads. reflexivity.
  - rewrite img_publisher_good_reads. reflexivity.
  - rewrite <- (app_nil_r (map (Read true) frames)).
    rewrite img_publisher_good_reads. reflexivity.
Qed.

End CameraExtras.
